(** * define: a command-line dictionary client

    A shallow embedding of the configuration layer (package [config]), the
    Oxford provider (package [oxford]), the Glosbe client (package [glosbe]),
    the result model they share (package [source]) and the panic writer
    (package [io]), followed by the properties of the specification that
    concern them and by further properties of the code.

    Conventions of the embedding.
    - A Go [uint] is a [Z] in the range [0 .. maxUint]; the platform is taken
      to be a 64-bit one ([strconv.IntSize = 64]).
    - A Go [string] is a [string]; its bytes are the [ascii] characters.
    - A Go function returning [(T, error)] returns a pair whose second
      component is an [option]; [None] is the [nil] error.
    - A Go pointer that may be [nil] is an [option]; a function that can
      dereference [nil] returns an [option] whose [None] is the run-time
      panic.
    - A Go [map] is a [gmap]; a [nil] map and an empty map are both the
      empty [gmap] (the program only reads, ranges over and assigns into its
      maps, and allocates a [nil] map before assigning into it).
    - Values that the libraries handle by reflection ([encoding/json],
      [fatih/structs], [mergo]) are given by their exported fields.
    - What the program reads from outside (command line, environment, file
      system, network) is a record passed to the function that reads it. *)

From stdpp Require Import base option list gmap strings sorting.
From Stdlib Require Import ZArith Ascii String Lia.

Set Warnings "-register-all".
Set Default Proof Using "Type".

(** ** Machine integers and bytes *)

Definition IntSize : Z := 64.
Definition maxUint64 : Z := 2 ^ 64 - 1.
Definition maxUint : Z := 2 ^ IntSize - 1.
Definition wrap64 (n : Z) : Z := n mod 2 ^ 64.

Definition byte_of (c : ascii) : Z := Z.of_N (N_of_ascii c).

(** ** Package strconv (Go standard library) *)
Module strconv.

Inductive NumError := ErrSyntax | ErrRange | ErrBase | ErrBitSize.

(** [lower(c)] of strconv: [c | ('x' - 'X')]. *)
Definition lower (c : Z) : Z := Z.lor c 32.

(** The digit value of one byte, as the [switch] of the parsing loop
    computes it; the underscore case belongs to base 0 only. *)
Definition digit_of (c : Z) : option Z :=
  if ((48 <=? c) && (c <=? 57))%Z then Some (c - 48)%Z
  else if ((97 <=? lower c) && (lower c <=? 122))%Z
       then Some (lower c - 97 + 10)%Z
       else None.

(** The loop [for _, c := range []byte(s)] of [ParseUint], with the
    accumulator [n] a [uint64]. *)
Fixpoint parse_loop (base cutoff maxVal : Z) (s : string) (n : Z)
  : Z * option NumError :=
  match s with
  | EmptyString => (n, None)
  | String c rest =>
      match digit_of (byte_of c) with
      | None => (0%Z, Some ErrSyntax)
      | Some d =>
          if (base <=? d)%Z then (0%Z, Some ErrSyntax)
          else if (cutoff <=? n)%Z then (maxVal, Some ErrRange)
          else
            let n' := wrap64 (n * base) in
            let n1 := wrap64 (n' + d) in
            if ((n1 <? n') || (maxVal <? n1))%Z then (maxVal, Some ErrRange)
            else parse_loop base cutoff maxVal rest n1
      end
  end.

(** [strconv.ParseUint(s, base, bitSize)] for an explicit base between
    2 and 36, the only way this program calls it (base 10).  Base 0, where
    the base is read off a prefix of [s], is not modelled and reported as
    [ErrBase] like every other base outside 2..36. *)
Definition ParseUint (s : string) (base bitSize : Z) : Z * option NumError :=
  if decide (s = EmptyString) then (0%Z, Some ErrSyntax)
  else if negb ((2 <=? base) && (base <=? 36))%Z then (0%Z, Some ErrBase)
  else
    let bitSize := if (bitSize =? 0)%Z then IntSize else bitSize in
    if ((bitSize <? 0) || (64 <? bitSize))%Z then (0%Z, Some ErrBitSize)
    else
      let cutoff := (maxUint64 / base + 1)%Z in
      let maxVal := (2 ^ bitSize - 1)%Z in
      parse_loop base cutoff maxVal s 0%Z.

End strconv.

(** ** JSON documents (package encoding/json, Go standard library)

    The byte syntax of JSON is the library's business; the embedding starts
    at the parsed document.  An object keeps its members in document order,
    duplicates included.  A number that is written as a plain integer is
    [JInt]; any other number literal is [JFloat].  The strings of a document
    are what the decoder makes of the literals, so what the encoder writes
    for a string is the string that is read back from it. *)
Module json.

Inductive json :=
| JNull
| JBool (b : bool)
| JInt (n : Z)
| JFloat (lit : string)
| JString (s : string)
| JArray (elems : list json)
| JObject (members : list (string * json)).

(** A Go value as [reflect] shows it to the libraries: here the scalar
    kinds that configuration structs are made of. *)
Inductive FieldValue :=
| FString (s : string)
| FUint (n : Z)
| FBool (b : bool).

Definition Struct := list (string * FieldValue).

#[global] Instance FieldValue_eq_dec : EqDecision FieldValue.
Proof. solve_decision. Defined.

Inductive error :=
| UnmarshalTypeError (field : string)
| SyntaxError (msg : string).

(** [utf8.DecodeRuneInString] as far as the encoder needs it: the number
    of bytes of the UTF-8 encoding that [s] starts with, and [0] when [s]
    starts with no such encoding (the library's [RuneError] of width 1).
    The second byte of an encoding has a range of its own after the first
    bytes E0, ED, F0 and F4. *)
Definition in_bytes (lo hi : Z) (c : ascii) : bool :=
  ((lo <=? byte_of c) && (byte_of c <=? hi))%Z.

Definition rune_width (s : string) : nat :=
  match s with
  | EmptyString => 0
  | String c0 rest =>
      let b0 := byte_of c0 in
      if (b0 <? 128)%Z then 1
      else if ((b0 <? 194) || (244 <? b0))%Z then 0
      else
        let size := if (b0 <? 224)%Z then 2 else if (b0 <? 240)%Z then 3 else 4 in
        let accept :=
          if (b0 =? 224)%Z then (160, 191)%Z
          else if (b0 =? 237)%Z then (128, 159)%Z
          else if (b0 =? 240)%Z then (144, 191)%Z
          else if (b0 =? 244)%Z then (128, 143)%Z
          else (128, 191)%Z in
        match rest with
        | String c1 rest =>
            if negb (in_bytes accept.1 accept.2 c1) then 0
            else if (size =? 2)%nat then 2
            else
              match rest with
              | String c2 rest =>
                  if negb (in_bytes 128 191 c2) then 0
                  else if (size =? 3)%nat then 3
                  else
                    match rest with
                    | String c3 _ => if in_bytes 128 191 c3 then 4 else 0
                    | EmptyString => 0
                    end
              | EmptyString => 0
              end
        | EmptyString => 0
        end
  end.

(** The encoding of U+FFFD. *)
Definition replacement : string :=
  String (ascii_of_nat 239)
    (String (ascii_of_nat 191) (String (ascii_of_nat 189) EmptyString)).

(** The string that is read back from what the encoder writes for [s]:
    the encoder goes through [s] rune by rune and writes U+FFFD for every
    byte that starts no UTF-8 encoding. *)
Fixpoint written_string (s : string) : string :=
  match s with
  | EmptyString => EmptyString
  | String c0 r0 =>
      match rune_width s, r0 with
      | 1%nat, _ => String c0 (written_string r0)
      | 2%nat, String c1 r1 => String c0 (String c1 (written_string r1))
      | 3%nat, String c1 (String c2 r2) =>
          String c0 (String c1 (String c2 (written_string r2)))
      | 4%nat, String c1 (String c2 (String c3 r3)) =>
          String c0 (String c1 (String c2 (String c3 (written_string r3))))
      | _, _ => replacement +:+ written_string r0
      end
  end.

(** Encoding of one value, and of a struct as an object with one member
    per exported field, in field order.  The names of the fields, which are
    Go identifiers, are written as they are. *)
Definition encode_value (v : FieldValue) : json :=
  match v with
  | FString s => JString (written_string s)
  | FUint n => JInt n
  | FBool b => JBool b
  end.

Definition encode_member (f : string * FieldValue) : string * json :=
  (f.1, encode_value f.2).

Definition encode_struct (fields : Struct) : json :=
  JObject (encode_member <$> fields).

Definition key_le (x y : string * json) : Prop :=
  String.leb x.1 y.1 = true.

#[global] Instance key_le_dec x y : Decision (key_le x y).
Proof. unfold key_le. apply _. Defined.

(** [json.Marshal] of a Go map: an object whose members are the entries of
    the map, sorted by key; the keys are written as strings are. *)
Definition Marshal_map (m : gmap string json) : json :=
  JObject ((λ kv, (written_string kv.1, kv.2))
             <$> merge_sort key_le (map_to_list m)).

(** Decoding of a document value into a field of the given kind.  [null]
    leaves the field alone; a value of another kind (or a number out of
    range) leaves it alone too and is a type error. *)
Definition store_value (name : string) (old : FieldValue) (v : json)
  : FieldValue * option error :=
  match v, old with
  | JNull, _ => (old, None)
  | JString s, FString _ => (FString s, None)
  | JInt n, FUint _ =>
      if ((0 <=? n) && (n <=? maxUint))%Z then (FUint n, None)
      else (old, Some (UnmarshalTypeError name))
  | JBool b, FBool _ => (FBool b, None)
  | _, _ => (old, Some (UnmarshalTypeError name))
  end.

Section decode.
(** The case-insensitive comparison of member names that the decoder
    falls back to when no field has exactly the member's name. *)
Variable fold : string → string → bool.

(** The field a member goes to: the one of that very name, or else the
    first whose name matches up to case. *)
Definition field_index (fields : Struct) (key : string) : option nat :=
  match list_find (λ name, name = key) fields.*1 with
  | Some (i, _) => Some i
  | None => fst <$> list_find (λ name, fold name key = true) fields.*1
  end.

(** One member of the object: find its field, store the value.  The
    first error is kept, decoding goes on. *)
Definition decode_member (st : Struct * option error) (m : string * json)
  : Struct * option error :=
  match field_index st.1 m.1 with
  | None => st
  | Some i =>
      match st.1 !! i with
      | None => st
      | Some (name, old) =>
          (<[i := (name, (store_value name old m.2).1)]> st.1,
           match st.2 with
           | Some err => Some err
           | None => (store_value name old m.2).2
           end)
      end
  end.

(** [json.Unmarshal(data, &s)] for a struct [s]. *)
Definition Unmarshal_struct (data : json) (fields : Struct)
  : Struct * option error :=
  match data with
  | JNull => (fields, None)
  | JObject members => foldl decode_member (fields, None) members
  | _ => (fields, Some (UnmarshalTypeError EmptyString))
  end.
End decode.

(** [json.Unmarshal(data, &m)] for [m] a [map[string]*json.RawMessage]:
    a later member replaces an earlier one of the same name, and a [null]
    member is stored as a [nil] pointer. *)
Definition raw_of (v : json) : option json :=
  match v with JNull => None | _ => Some v end.

Definition Unmarshal_rawmap (data : json)
  : gmap string (option json) * option error :=
  match data with
  | JNull => (∅, None)
  | JObject members =>
      (foldl (λ m kv, <[kv.1 := raw_of kv.2]> m) ∅ members, None)
  | _ => (∅, Some (UnmarshalTypeError EmptyString))
  end.

End json.

(** ** Package registry

    [registry.Configuration] is the interface [{ JSONKey() string }]; its
    values are pointers to the providers' configuration structs.  A value is
    given by the key it reports and by its exported fields. *)
Module registry.

Record Configuration := {
  JSONKey : string;
  Fields : json.Struct;
}.

#[global] Instance Configuration_eq_dec : EqDecision Configuration.
Proof. unfold json.Struct. solve_decision. Defined.

End registry.

(** ** Package config (src/internal/io/writer.go, its second part) *)
Module config.

Inductive error :=
| errors_New (msg : string)
| FlagError (msg : string)
| PathError (op path msg : string)
| JSONError (e : json.error).

(** The [Error()] text.  For a decoding error of the JSON library the
    description of the offending value and of the field's type, which the
    library adds to the text, are left out. *)
Definition Error (e : error) : string :=
  match e with
  | errors_New msg => msg
  | FlagError msg => msg
  | PathError op path msg => op +:+ " " +:+ path +:+ ": " +:+ msg
  | JSONError (json.SyntaxError msg) => msg
  | JSONError (json.UnmarshalTypeError field) =>
      "json: cannot unmarshal into Go struct field " +:+ field
  end.

(** [type Configuration struct]: two exported fields, then the two private
    ones.  A [nil] interface value in the map is [None]. *)
Record Configuration := {
  IndentationSize : Z;
  PreferredSource : string;
  providerConfigs : gmap string (option registry.Configuration);
  configFileLocation : string;
}.

(** [var conf Configuration] *)
Definition zero : Configuration :=
  {| IndentationSize := 0; PreferredSource := "";
     providerConfigs := ∅; configFileLocation := "" |}.

Definition set_IndentationSize (c : Configuration) (n : Z) : Configuration :=
  {| IndentationSize := n; PreferredSource := PreferredSource c;
     providerConfigs := providerConfigs c;
     configFileLocation := configFileLocation c |}.

Definition set_PreferredSource (c : Configuration) (s : string) : Configuration :=
  {| IndentationSize := IndentationSize c; PreferredSource := s;
     providerConfigs := providerConfigs c;
     configFileLocation := configFileLocation c |}.

Definition set_providerConfigs (c : Configuration)
    (m : gmap string (option registry.Configuration)) : Configuration :=
  {| IndentationSize := IndentationSize c;
     PreferredSource := PreferredSource c;
     providerConfigs := m;
     configFileLocation := configFileLocation c |}.

Definition set_configFileLocation (c : Configuration) (s : string) : Configuration :=
  {| IndentationSize := IndentationSize c;
     PreferredSource := PreferredSource c;
     providerConfigs := providerConfigs c;
     configFileLocation := s |}.

(** *** The outside of the program *)

(** The command line as [flags.Parse(os.Args[1:])] reads it: the value
    given for each of the three flags that [initializeCommandLineConfig]
    defines, when the flag is given, and the error of the parse. *)
Record FlagSet := {
  flag_config_file : option string;
  flag_indent_size : option Z;
  flag_preferred_source : option string;
  flag_parse_error : option error;
}.

(** [os.Stat]: no error, an error that [os.IsNotExist] recognises, or
    another error. *)
Inductive StatResult := StatOK | StatNotExist | StatOtherError.

Record Runtime := {
  environ : gmap string string;
  homedir_Expand : string → option string;
  os_Stat : string → StatResult;
  ioutil_ReadFile : string → string + error;
  json_parse : string → json.json + json.error;
  registry_Providers : list registry.Configuration;
}.

(** [os.Getenv]: the empty string when the variable is not set. *)
Definition os_Getenv (rt : Runtime) (key : string) : string :=
  default "" (environ rt !! key).

(** *** Command line, lines 150-159 *)

(** [initializeCommandLineConfig]: the zero configuration, its fields bound
    to the flags with zero defaults. *)
Definition initializeCommandLineConfig (flags : FlagSet) : Configuration :=
  zero.

(** [flags.Parse(os.Args[1:])] writes the given flags into the bound
    fields. *)
Definition flags_Parse (flags : FlagSet) (conf : Configuration)
  : Configuration * option error :=
  ({| IndentationSize := default (IndentationSize conf) (flag_indent_size flags);
      PreferredSource :=
        default (PreferredSource conf) (flag_preferred_source flags);
      providerConfigs := providerConfigs conf;
      configFileLocation :=
        default (configFileLocation conf) (flag_config_file flags) |},
   flag_parse_error flags).

(** *** Environment, lines 186-196 *)

Definition initializeEnvironmentConfig (rt : Runtime) : Configuration :=
  let conf := zero in
  let conf :=
    match strconv.ParseUint (os_Getenv rt "DEFINE_APP_INDENT_SIZE") 10 0 with
    | (val, None) => set_IndentationSize conf (val mod 2 ^ IntSize)
    | (_, Some _) => conf
    end in
  set_PreferredSource conf (os_Getenv rt "DEFINE_APP_PREFERRED_SOURCE").

(** *** Merge, lines 201-211 *)

(** [mergo.Merge(&dst, src)] on two [Configuration] values (library
    imdario/mergo, called without options): every exported field of [dst]
    that holds its zero value receives the field of [src] when that one is
    not zero.  The library sets fields through [reflect] and skips a field
    it cannot set, which is the case of the unexported fields
    [providerConfigs] and [configFileLocation], so these keep the value
    they have in [dst].  Its errors are for [nil] or differently typed
    arguments, which this call cannot give. *)
Definition mergo_Merge (dst src : Configuration)
  : Configuration * option error :=
  ({| IndentationSize :=
        if negb (IndentationSize src =? 0)%Z && (IndentationSize dst =? 0)%Z
        then IndentationSize src else IndentationSize dst;
      PreferredSource :=
        if negb (bool_decide (PreferredSource src = ""))
           && bool_decide (PreferredSource dst = "")
        then PreferredSource src else PreferredSource dst;
      providerConfigs := providerConfigs dst;
      configFileLocation := configFileLocation dst |},
   None).

(** The loop [for _, conf := range confs] over the accumulator [merged]. *)
Fixpoint merge_loop (merged : Configuration) (confs : list Configuration)
  : Configuration * option error :=
  match confs with
  | [] => (merged, None)
  | conf :: confs =>
      match mergo_Merge merged conf with
      | (merged, Some err) => (merged, Some err)
      | (merged, None) => merge_loop merged confs
      end
  end.

Definition mergeConfigurations (confs : list Configuration)
  : Configuration * option error :=
  merge_loop zero confs.

(** *** JSON, lines 296-348 *)

(** The exported fields of a [Configuration], as [structs.Map] and the
    decoder of [encoding/json] see them. *)
Definition base_fields (c : Configuration) : json.Struct :=
  [("IndentationSize", json.FUint (IndentationSize c));
   ("PreferredSource", json.FString (PreferredSource c))].

Definition with_base_fields (c : Configuration) (fields : json.Struct)
  : Configuration :=
  match fields with
  | [(_, json.FUint n); (_, json.FString s)] =>
      set_PreferredSource (set_IndentationSize c n) s
  | _ => c
  end.

(** [structs.Map(c)] (library fatih/structs): one entry per exported
    field; the values are kept in their JSON form. *)
Definition structs_Map (c : Configuration) : gmap string json.json :=
  list_to_map (json.encode_member <$> base_fields c).

(** [structs.Fields(providerConf)]: the exported fields. *)
Definition structs_Fields (providerConf : registry.Configuration)
  : json.Struct :=
  registry.Fields providerConf.

(** The body of the loop of [MarshalJSON].  Go ranges over a map in an
    unspecified order; [map_fold] fixes one. *)
Definition marshal_provider (key : string)
    (providerConf : option registry.Configuration)
    (configMap : gmap string json.json) : gmap string json.json :=
  match providerConf with
  | None => configMap
  | Some providerConf =>
      if decide (List.length (structs_Fields providerConf) < 1)%nat
      then configMap
      else <[registry.JSONKey providerConf :=
               json.encode_struct (registry.Fields providerConf)]> configMap
  end.

Definition MarshalJSON (c : Configuration) : json.json * option error :=
  let configMap := structs_Map c in
  let configMap := map_fold marshal_provider configMap (providerConfigs c) in
  (json.Marshal_map configMap, None).

Section decode.
Variable fold : string → string → bool.

(** The loop [for conf := range registry.Providers()] of [UnmarshalJSON]:
    a provider whose key is in the document is decoded in place (the error
    of that decoding is dropped) and attached; the raw message of a [null]
    member is a [nil] pointer, and dereferencing it panics.  The second
    component is the registry's configurations after the loop. *)
Fixpoint attach_providers (configMap : gmap string (option json.json))
    (providers : list registry.Configuration) (c : Configuration)
  : option (Configuration * list registry.Configuration) :=
  match providers with
  | [] => Some (c, [])
  | conf :: providers =>
      match configMap !! registry.JSONKey conf with
      | None =>
          '(c, providers) ← attach_providers configMap providers c;
          Some (c, conf :: providers)
      | Some None => None
      | Some (Some rawConf) =>
          let conf :=
            {| registry.JSONKey := registry.JSONKey conf;
               registry.Fields :=
                 (json.Unmarshal_struct fold rawConf (registry.Fields conf)).1 |} in
          let c :=
            set_providerConfigs c
              (<[registry.JSONKey conf := Some conf]> (providerConfigs c)) in
          '(c, providers) ← attach_providers configMap providers c;
          Some (c, conf :: providers)
      end
  end.

(** [UnmarshalJSON] on the receiver [c], with the configurations that
    [registry.Providers()] holds.  The result is the receiver, the returned
    error and the registry's configurations afterwards. *)
Definition UnmarshalJSON (providers : list registry.Configuration)
    (data : json.json) (c : Configuration)
  : option (Configuration * option error * list registry.Configuration) :=
  let base := json.Unmarshal_struct fold data (base_fields c) in
  let c := with_base_fields c base.1 in
  match base.2 with
  | Some err => Some (c, Some (JSONError err), providers)
  | None =>
      let raw := json.Unmarshal_rawmap data in
      match raw.2 with
      | Some err => Some (c, Some (JSONError err), providers)
      | None =>
          '(c, providers) ← attach_providers raw.1 providers c;
          Some (c, None, providers)
      end
  end.

(** [json.Unmarshal(fileContents, &conf)]: the syntax is checked first,
    then [UnmarshalJSON] is given the document. *)
Definition json_Unmarshal (rt : Runtime) (data : string) (c : Configuration)
  : option (Configuration * option error * list registry.Configuration) :=
  match json_parse rt data with
  | inr err => Some (c, Some (JSONError err), registry_Providers rt)
  | inl doc => UnmarshalJSON (registry_Providers rt) doc c
  end.

(** *** File, lines 163-182 *)

Definition expand (rt : Runtime) (location : string) : string :=
  default location (homedir_Expand rt location).

Definition initializeFileConfig (rt : Runtime) (fileLocation : string)
  : option (Configuration * option error * list registry.Configuration) :=
  let conf := zero in
  let fileLocation := expand rt fileLocation in
  match ioutil_ReadFile rt fileLocation with
  | inr err => Some (conf, Some err, registry_Providers rt)
  | inl fileContents =>
      if decide (0 < String.length fileContents)%nat
      then json_Unmarshal rt fileContents conf
      else Some (conf, None, registry_Providers rt)
  end.

(** *** NewFromRuntime, lines 223-282 *)

(** Lines 244-258: the location of the file to load ([""]: none), and the
    defaults with their location expanded. *)
Definition resolveConfigFile (rt : Runtime)
    (commandLineConfig defaults : Configuration) : string * Configuration :=
  let configFileLocation := configFileLocation commandLineConfig in
  if bool_decide (configFileLocation = "")
     && negb (bool_decide (config.configFileLocation defaults = ""))
  then
    let defaults :=
      set_configFileLocation defaults
        (expand rt (config.configFileLocation defaults)) in
    match os_Stat rt (config.configFileLocation defaults) with
    | StatNotExist => (configFileLocation, defaults)
    | _ => (config.configFileLocation defaults, defaults)
    end
  else (configFileLocation, defaults).

(** Lines 260-267: the file configuration and the error after the attempt
    to load. *)
Definition loadConfigFile (rt : Runtime) (configFileLocation : string)
  : option (Configuration * option error * list registry.Configuration) :=
  if negb (bool_decide (configFileLocation = ""))
  then
    '(fileConfig, err, providers) ← initializeFileConfig rt configFileLocation;
    match err with
    | Some _ =>
        Some (fileConfig, Some (errors_New "error reading config file"), providers)
    | None => Some (fileConfig, None, providers)
    end
  else Some (zero, None, registry_Providers rt).

(** The values of the provider map are pointers, and the program passes
    [NewFromRuntime] the pointers that the registry holds (define.go, line
    56): what [UnmarshalJSON] decodes into a configuration of the registry
    shows in the map.  Pointers being given by the values they point to, a
    configuration of the map that equals one that the registry held before
    the load is taken to be that one, and is read as the registry holds it
    after the load; any other is as it was. *)
Definition read_through (before after : list registry.Configuration)
    (providerConf : registry.Configuration) : registry.Configuration :=
  match list_find (λ conf, conf = providerConf) before with
  | Some (i, _) => default providerConf (after !! i)
  | None => providerConf
  end.

Definition providerConfigs_after (before after : list registry.Configuration)
    (providerConfigs : gmap string (option registry.Configuration))
  : gmap string (option registry.Configuration) :=
  (λ providerConf : option registry.Configuration,
     read_through before after <$> providerConf) <$> providerConfigs.

(** [NewFromRuntime]: the configuration (its provider map, line 279, as it
    shows after the call), the error, and the configurations of the
    registry after the call. *)
Definition NewFromRuntime (rt : Runtime) (flags : FlagSet)
    (providerConfigs : gmap string (option registry.Configuration))
    (defaultConfigFileLocation : string) (defaults : Configuration)
  : option (Configuration * option error * list registry.Configuration) :=
  let conf := zero in
  let fileConfig := zero in
  let defaults := set_configFileLocation defaults defaultConfigFileLocation in
  let commandLineConfig := initializeCommandLineConfig flags in
  let '(commandLineConfig, err) := flags_Parse flags commandLineConfig in
  '(fileConfig, err, defaults, providers) ←
    match err with
    | None =>
        let '(configFileLocation, defaults) :=
          resolveConfigFile rt commandLineConfig defaults in
        '(fileConfig, err, providers) ← loadConfigFile rt configFileLocation;
        Some (fileConfig, err, defaults, providers)
    | Some _ => Some (fileConfig, err, defaults, registry_Providers rt)
    end;
  let '(conf, err) :=
    match err with
    | None =>
        mergeConfigurations
          [commandLineConfig; fileConfig; initializeEnvironmentConfig rt; defaults]
    | Some _ => (conf, err)
    end in
  let conf :=
    set_providerConfigs conf
      (providerConfigs_after (registry_Providers rt) providers providerConfigs) in
  Some (conf, err, providers).

End decode.

End config.

(** ** Package source

    The package's file is not part of the sources at hand; its types are
    known from their use in [glosbe.toResult], its functions from the
    specification. *)
Module source.

Inductive error :=
| EmptyResultError (Word : string)
| UnexpectedStatusCode (code : Z)
| UnexpectedContentType (mime : string)
| LibraryError (msg : string).

(** Modelled from the spec: the fields of a sense besides [DefinitionVals],
    which is the one [glosbe.toResult] sets: "ordered sequence of definition
    strings, ordered sequence of example strings, ordered sequence of
    synonyms, ordered sequence of antonyms". *)
Record SenseValue := {
  DefinitionVals : list string;
  ExampleVals : list string;
  SenseSynonymVals : list string;
  SenseAntonymVals : list string;
}.

(** Modelled from the spec: the fields of a dictionary entry besides
    [SenseVals]: "a Dictionary-entry carries pronunciation text/audio-URL and
    an ordered sequence of Senses". *)
Record DictionaryEntryValue := {
  PronunciationVal : string;
  AudioFileVal : string;
  SenseVals : list SenseValue;
}.

(** Modelled from the spec: the fields of a thesaurus entry besides
    [SynonymVals]: "a Thesaurus-entry carries synonym/antonym word lists". *)
Record ThesaurusEntryValue := {
  SynonymVals : list string;
  AntonymVals : list string;
}.

(** An element of [EntryVals], an [interface{}]: a value that is a
    dictionary entry, a thesaurus entry, or both, as [glosbeEntry] is. *)
Record Entry := {
  dictionary : option DictionaryEntryValue;
  thesaurus : option ThesaurusEntryValue;
}.

Record ResultValue := {
  Head : string;
  Lang : string;
  EntryVals : list Entry;
}.

Definition sense (definitions : list string) : SenseValue :=
  {| DefinitionVals := definitions; ExampleVals := [];
     SenseSynonymVals := []; SenseAntonymVals := [] |}.

Definition nonempty {A} (l : list A) : bool :=
  match l with [] => false | _ => true end.

(** Modelled from the spec: what makes a sense, and an entry of either kind,
    carry content: "each Entry must carry at least one non-empty field (a
    definition, a synonym, etc.)", "no definitions, no synonyms, no
    pronunciation, etc. depending on entry kind". *)
Definition sense_has_content (s : SenseValue) : bool :=
  nonempty (DefinitionVals s) || nonempty (ExampleVals s)
  || nonempty (SenseSynonymVals s) || nonempty (SenseAntonymVals s).

Definition dictionary_has_content (d : DictionaryEntryValue) : bool :=
  negb (bool_decide (PronunciationVal d = ""))
  || negb (bool_decide (AudioFileVal d = ""))
  || existsb sense_has_content (SenseVals d).

Definition thesaurus_has_content (t : ThesaurusEntryValue) : bool :=
  nonempty (SynonymVals t) || nonempty (AntonymVals t).

Definition entry_has_content (e : Entry) : bool :=
  from_option dictionary_has_content false (dictionary e)
  || from_option thesaurus_has_content false (thesaurus e).

(** Modelled from the spec: [ValidateResult], the function itself being in the
    missing file: it "fails with EmptyResultError{word} when the result has
    no entries, or when every entry is itself content-free"; the word is the
    head word of the result, the only word the function is given. *)
Definition ValidateResult (result : ResultValue) : option error :=
  if decide (List.length (EntryVals result) < 1)%nat
  then Some (EmptyResultError (Head result))
  else if forallb (λ e, negb (entry_has_content e)) (EntryVals result)
       then Some (EmptyResultError (Head result))
       else None.

(** Modelled from the spec: [ValidateAndReturnResult], the "convenience
    composition of validate-then-return". *)
Definition ValidateAndReturnResult (result : ResultValue)
  : option ResultValue * option error :=
  match ValidateResult result with
  | Some err => (None, Some err)
  | None => (Some result, None)
  end.

(** What [ValidateHTTPResponse] reads of an [http.Response]; the body is
    what [ioutil.ReadAll] gives for it. *)
Record Response := {
  StatusCode : Z;
  ContentType : string;
  Body : string + error;
}.

(** Modelled from the spec: [ValidateHTTPResponse], which "fails with a
    descriptive error naming the unexpected status code or content type. A
    nil/empty acceptable-status-codes argument means only 200 is
    acceptable". *)
Definition ValidateHTTPResponse (response : Response)
    (validMIMETypes : list string) (validStatusCodes : list Z) : option error :=
  let validStatusCodes :=
    match validStatusCodes with [] => [200%Z] | _ => validStatusCodes end in
  if negb (bool_decide (StatusCode response ∈ validStatusCodes))
  then Some (UnexpectedStatusCode (StatusCode response))
  else if negb (bool_decide (ContentType response ∈ validMIMETypes))
       then Some (UnexpectedContentType (ContentType response))
       else None.

End source.

(** ** Package net/url (Go standard library): queries *)
Module url.

Record URL := {
  Scheme : string;
  Host : string;
  Path : string;
  RawQuery : string;
}.

Definition set_RawQuery (u : URL) (q : string) : URL :=
  {| Scheme := Scheme u; Host := Host u; Path := Path u; RawQuery := q |}.

(** [url.Values], a [map[string][]string]. *)
Definition Values := gmap string (list string).

Definition in_range (lo hi : Z) (c : ascii) : bool :=
  ((lo <=? byte_of c) && (byte_of c <=? hi))%Z.

Definition is_alnum (c : ascii) : bool :=
  in_range 48 57 c || in_range 65 90 c || in_range 97 122 c.

(** [shouldEscape(c, encodeQueryComponent)]: everything but letters, digits
    and [-_.~]. *)
Definition shouldEscape (c : ascii) : bool :=
  negb (is_alnum c
        || bool_decide (c = "-"%char) || bool_decide (c = "_"%char)
        || bool_decide (c = "."%char) || bool_decide (c = "~"%char)).

Definition upperhex (n : N) : ascii :=
  if (n <? 10)%N then ascii_of_N (48 + n) else ascii_of_N (55 + n).

Definition unhex (c : ascii) : option N :=
  if in_range 48 57 c then Some (N_of_ascii c - 48)%N
  else if in_range 97 102 c then Some (N_of_ascii c - 97 + 10)%N
  else if in_range 65 70 c then Some (N_of_ascii c - 65 + 10)%N
  else None.

Fixpoint QueryEscape (s : string) : string :=
  match s with
  | EmptyString => EmptyString
  | String c rest =>
      if bool_decide (c = " "%char) then String "+" (QueryEscape rest)
      else if shouldEscape c
      then String "%" (String (upperhex (N_of_ascii c / 16))
                         (String (upperhex (N_of_ascii c mod 16))
                            (QueryEscape rest)))
      else String c (QueryEscape rest)
  end.

(** [QueryUnescape]; [None] is its error (a percent sign that is not
    followed by two hexadecimal digits). *)
Fixpoint QueryUnescape (s : string) : option string :=
  match s with
  | EmptyString => Some EmptyString
  | String c rest =>
      if bool_decide (c = "%"%char) then
        match rest with
        | String a (String b rest) =>
            match unhex a, unhex b with
            | Some hi, Some lo =>
                String (ascii_of_N (hi * 16 + lo)) <$> QueryUnescape rest
            | _, _ => None
            end
        | _ => None
        end
      else if bool_decide (c = "+"%char)
      then String " " <$> QueryUnescape rest
      else String c <$> QueryUnescape rest
  end.

(** The pieces of [s] between the occurrences of [sep]. *)
Fixpoint split_on (sep : ascii) (s : string) : list string :=
  match s with
  | EmptyString => [EmptyString]
  | String c rest =>
      if bool_decide (c = sep) then EmptyString :: split_on sep rest
      else match split_on sep rest with
           | piece :: pieces => String c piece :: pieces
           | [] => [String c EmptyString]
           end
  end.

(** [strings.Cut(s, sep)] for a one-byte separator. *)
Fixpoint cut (sep : ascii) (s : string) : string * string :=
  match s with
  | EmptyString => (EmptyString, EmptyString)
  | String c rest =>
      if bool_decide (c = sep) then (EmptyString, rest)
      else (String c (cut sep rest).1, (cut sep rest).2)
  end.

Fixpoint contains (c : ascii) (s : string) : bool :=
  match s with
  | EmptyString => false
  | String c' rest => bool_decide (c' = c) || contains c rest
  end.

(** One turn of the loop of [parseQuery], on the piece [key] of the query
    up to the next ampersand.  A piece that is empty, holds a semicolon or
    does not unescape adds nothing (the error is dropped by [Query]). *)
Definition parse_piece (m : Values) (key : string) : Values :=
  if contains ";" key then m
  else if bool_decide (key = EmptyString) then m
  else
    match QueryUnescape (cut "=" key).1, QueryUnescape (cut "=" key).2 with
    | Some key, Some value => <[key := default [] (m !! key) ++ [value]]> m
    | _, _ => m
    end.

Definition ParseQuery (query : string) : Values :=
  foldl parse_piece ∅ (split_on "&" query).

(** [u.Query()] *)
Definition Query (u : URL) : Values := ParseQuery (RawQuery u).

(** [v.Set(key, value)] *)
Definition Values_Set (v : Values) (key value : string) : Values :=
  <[key := [value]]> v.

Definition string_le (x y : string) : Prop := String.leb x y = true.

#[global] Instance string_le_dec x y : Decision (string_le x y).
Proof. unfold string_le. apply _. Defined.

Fixpoint join (sep : string) (l : list string) : string :=
  match l with
  | [] => EmptyString
  | [x] => x
  | x :: l => x +:+ sep +:+ join sep l
  end.

(** [v.Encode()]: "key=value" pairs, escaped, sorted by key, joined by
    ampersands. *)
Definition Values_Encode (v : Values) : string :=
  join "&"
    (k ← merge_sort string_le (map_to_list v).*1;
     (λ value, QueryEscape k +:+ "=" +:+ QueryEscape value)
       <$> default [] (v !! k)).

(** [u.String()] for a URL made of a scheme, a host, a path and a query. *)
Definition URL_String (u : URL) : string :=
  Scheme u +:+ "://" +:+ Host u +:+ Path u
  +:+ (if bool_decide (RawQuery u = EmptyString) then EmptyString
       else "?" +:+ RawQuery u).

End url.

(** ** Package glosbe (src/source/glosbe/glosbe.go) *)
Module glosbe.

Definition Name : string := "Glosbe API".
Definition baseURLString : string :=
  "https://glosbe.com/gapi/translate?format=json&from=en&dest=en".
Definition wordParameter : string := "phrase".
Definition httpRequestAcceptHeaderName : string := "Accept".
Definition jsonMIMEType : string := "application/json".

(** The anonymous struct of a meaning and of a phrase. *)
Record text := {
  Language : string;
  Text : string;
}.

(** The anonymous struct of an element of [TUC]. *)
Module item.
Record t := {
  Meanings : list (option text);
  Phrase : option text;
  Authors : list Z;
}.
End item.

(** [type apiResult struct]; the elements of [TUC] and of [Meanings] are
    pointers. *)
Record apiResult := {
  Result : string;
  TUC : list (option item.t);
  Phrase : string;
  Dest : string;
}.

(** [type glosbeEntry struct]: both entry values, embedded. *)
Definition glosbeEntry (d : source.DictionaryEntryValue)
    (t : source.ThesaurusEntryValue) : source.Entry :=
  {| source.dictionary := Some d; source.thesaurus := Some t |}.

(** *** Package-level variables *)

Record State := {
  apiURL : url.URL;
  validMIMETypes : list string;
}.

(** The state after [init()]: [apiURL] is [url.Parse(baseURLString)]. *)
Definition init : State :=
  {| apiURL := {| url.Scheme := "https"; url.Host := "glosbe.com";
                  url.Path := "/gapi/translate";
                  url.RawQuery := "format=json&from=en&dest=en" |};
     validMIMETypes := [jsonMIMEType] |}.

(** *** The network *)

Record Request := {
  Method : string;
  URL : string;
  Header : gmap string string;
}.

Definition Header_Set (r : Request) (key value : string) : Request :=
  {| Method := Method r; URL := URL r; Header := <[key := value]> (Header r) |}.

Record World := {
  http_NewRequest : string → string → Request + source.error;
  httpClient_Do : Request → source.Response + source.error;
  json_Unmarshal : string → apiResult + source.error;
}.

Section toResult.
(** [strings.EqualFold] *)
Variable EqualFold : string → string → bool.

(** The inner loop [for _, meaning := range item.Meanings]. *)
Fixpoint append_meanings (meanings : list (option text))
    (senses : list source.SenseValue) : option (list source.SenseValue) :=
  match meanings with
  | [] => Some senses
  | None :: _ => None
  | Some meaning :: meanings =>
      let sense := source.sense [Text meaning] in
      append_meanings meanings (senses ++ [sense])
  end.

(** The loop [for _, item := range r.TUC] over [senses] and
    [entry.SynonymVals]. *)
Fixpoint toResult_loop (phrase : string) (tuc : list (option item.t))
    (senses : list source.SenseValue) (synonyms : list string)
  : option (list source.SenseValue * list string) :=
  match tuc with
  | [] => Some (senses, synonyms)
  | None :: _ => None
  | Some item :: tuc =>
      match item.Phrase item with
      | None =>
          senses ← append_meanings (item.Meanings item) senses;
          toResult_loop phrase tuc senses synonyms
      | Some p =>
          if EqualFold (Text p) phrase then
            senses ← append_meanings (item.Meanings item) senses;
            toResult_loop phrase tuc senses synonyms
          else if negb (bool_decide (Text p = ""))
          then toResult_loop phrase tuc senses (synonyms ++ [Text p])
          else toResult_loop phrase tuc senses synonyms
      end
  end.

(** [toResult], lines 131-160. *)
Definition toResult (r : apiResult) : option source.ResultValue :=
  '(senses, synonyms) ← toResult_loop (Phrase r) (TUC r) [] [];
  let entry :=
    glosbeEntry
      {| source.PronunciationVal := ""; source.AudioFileVal := "";
         source.SenseVals := senses |}
      {| source.SynonymVals := synonyms; source.AntonymVals := [] |} in
  Some {| source.Head := Phrase r; source.Lang := Dest r;
          source.EntryVals := [entry] |}.

(** [Define], lines 87-128, on the package state: the state afterwards and
    what is returned ([None]: a panic). *)
Definition Define (w : World) (st : State) (word : string)
  : State * option (option source.ResultValue * option source.error) :=
  let queryParams := url.Query (apiURL st) in
  let queryParams := url.Values_Set queryParams wordParameter word in
  let st :=
    {| apiURL := url.set_RawQuery (apiURL st) (url.Values_Encode queryParams);
       validMIMETypes := validMIMETypes st |} in
  (st,
   match http_NewRequest w "GET" (url.URL_String (apiURL st)) with
   | inr err => Some (None, Some err)
   | inl httpRequest =>
       let httpRequest :=
         Header_Set httpRequest httpRequestAcceptHeaderName jsonMIMEType in
       match httpClient_Do w httpRequest with
       | inr err => Some (None, Some err)
       | inl httpResponse =>
           match source.ValidateHTTPResponse httpResponse (validMIMETypes st) [] with
           | Some err => Some (None, Some err)
           | None =>
               match source.Body httpResponse with
               | inr err => Some (None, Some err)
               | inl body =>
                   match json_Unmarshal w body with
                   | inr err => Some (None, Some err)
                   | inl result =>
                       if decide (List.length (TUC result) < 1)%nat
                       then Some (None, Some (source.EmptyResultError word))
                       else source.ValidateAndReturnResult <$> toResult result
                   end
               end
           end
       end
   end).

End toResult.

End glosbe.

(** ** Package oxford (src/source/oxford/provider.go) *)
Module oxford.

Record RequiredConfigError := {
  Key : string;
}.

Record config := {
  AppID : string;
  AppKey : string;
}.

Definition JSONKey : string := "OxfordDictionary".

(** A pointer to a [config] as a [registry.Configuration], and the type
    assertion of line 63 back; [None] is the panic of a failed assertion. *)
Definition to_Configuration (c : config) : registry.Configuration :=
  {| registry.JSONKey := JSONKey;
     registry.Fields :=
       [("AppID", json.FString (AppID c)); ("AppKey", json.FString (AppKey c))] |}.

Definition assert_config (conf : registry.Configuration) : option config :=
  if bool_decide (registry.JSONKey conf = JSONKey) then
    match registry.Fields conf with
    | [(_, json.FString id); (_, json.FString key)] =>
        Some {| AppID := id; AppKey := key |}
    | _ => None
    end
  else None.

Section provide.
(** The client type and its constructor [New] are in the package's other
    file; [http.Client{}] is the zero client. *)
Variable Source : Type.
Variable New : unit → string → string → Source.

(** [Provide], lines 62-74. *)
Definition Provide (conf : registry.Configuration)
  : option (option Source * option RequiredConfigError) :=
  config ← assert_config conf;
  if bool_decide ("" = AppID config)
  then Some (None, Some {| Key := "AppID" |})
  else if bool_decide ("" = AppKey config)
  then Some (None, Some {| Key := "AppKey" |})
  else Some (Some (New () (AppID config) (AppKey config)), None).

End provide.

(** The command line as [flags.Parse] reads it: the value given for each
    of the two flags that [initConfig] defines, when the flag is given. *)
Record FlagSet := {
  flag_app_id : option string;
  flag_app_key : option string;
}.

(** [initConfig], lines 40-52: the fields are bound to the two flags, with
    empty defaults, and then set from the environment. *)
Definition initConfig (rt : config.Runtime) : config :=
  let conf := {| AppID := ""; AppKey := "" |} in
  let conf :=
    {| AppID := config.os_Getenv rt "OXFORD_DICTIONARY_APP_ID";
       AppKey := AppKey conf |} in
  {| AppID := AppID conf;
     AppKey := config.os_Getenv rt "OXFORD_DICTIONARY_APP_KEY" |}.

(** A later [flags.Parse] writes the given flags into the bound fields. *)
Definition flags_Parse (flags : FlagSet) (conf : config) : config :=
  {| AppID := default (AppID conf) (flag_app_id flags);
     AppKey := default (AppKey conf) (flag_app_key flags) |}.

End oxford.

(** ** Package io (src/internal/io/writer.go, its first part)

    The program imports the package under the name [defineio].  A [[]byte]
    is a [string], like a Go [string].  An [int] is a [Z] between
    [- 2 ^ 63] and [maxInt].  Memory is taken to be unbounded: an
    allocation does not fail.  The methods that format their arguments
    with package [fmt] ([FWrite], [FWritef], [FWriteln]) are [WriteString]
    of the formatted text and are left out. *)
Module defineio.

Definition maxInt : Z := 2 ^ 63 - 1.

(** The conversion [int(n)] of a [uint], and [a + b] on [int]. *)
Definition int_of_uint (n : Z) : Z :=
  if (n <=? maxInt)%Z then n else (n - 2 ^ 64)%Z.

Definition int_add (a b : Z) : Z := int_of_uint ((a + b) mod 2 ^ 64).

Fixpoint repeat_string (b : string) (count : nat) : string :=
  match count with
  | O => EmptyString
  | S count => b +:+ repeat_string b count
  end.

(** [bytes.Repeat(b, count)]; it panics ([None]) on a negative count and
    when the length of the result does not fit an [int]. *)
Definition bytes_Repeat (b : string) (count : Z) : option string :=
  if (count =? 0)%Z then Some EmptyString
  else if (count <? 0)%Z then None
  else if (maxInt <? Z.of_nat (String.length b) * count)%Z then None
  else Some (repeat_string b (Z.to_nat count)).

Definition newline : string := String (ascii_of_nat 10) EmptyString.

Section PanicWriter.
(** What the writers write to, and the errors of writing. *)
Variable World : Type.
Variable error : Type.

(** A function with effects: from the state it finds to the state it
    leaves and, unless it panicked ([None]), what it returns. *)
Definition M (A : Type) : Type := World → World * option A.

Definition ret {A : Type} (a : A) : M A := λ world, (world, Some a).

Definition panic {A : Type} : M A := λ world, (world, None).

Definition bind {A B : Type} (m : M A) (f : A → M B) : M B :=
  λ world,
    match m world with
    | (world, Some a) => f a world
    | (world, None) => (world, None)
    end.

(** The interface [io.Writer]: a value, which is not [nil], is given by
    its method [Write]. *)
Record io_Writer := {
  io_Write : string → M (Z * option error);
}.

(** [type PanicWriter struct] *)
Record PanicWriter := {
  inner : io_Writer;
  spaces : Z;
}.

(** [NewPanicWriter], lines 25-27. *)
Definition NewPanicWriter (writer : io_Writer) : PanicWriter :=
  {| inner := writer; spaces := 0 |}.

(** [Write], lines 31-43. *)
Definition Write (w : PanicWriter) (p : string) : M Z :=
  bind
    (if (0 <? spaces w)%Z then
       match bytes_Repeat " " (int_of_uint (spaces w)) with
       | Some indentation => ret (indentation +:+ p)
       | None => panic
       end
     else ret p)
    (λ p,
       bind (io_Write (inner w) p)
         (λ '(n, err),
            match err with
            | Some _ => panic
            | None => ret n
            end)).

(** [WriteString], lines 47-49. *)
Definition WriteString (w : PanicWriter) (p : string) : M Z := Write w p.

(** [WriteNewLine], lines 75-77. *)
Definition WriteNewLine (w : PanicWriter) : M Z := WriteString w newline.

(** [WriteStringLine], lines 82-84: the operands of the sum are evaluated
    from left to right. *)
Definition WriteStringLine (w : PanicWriter) (p : string) : M Z :=
  bind (WriteString w p)
    (λ n, bind (WriteNewLine w) (λ m, ret (int_add n m))).

(** [indented], lines 110-112: the sum is one of [uint]s. *)
Definition indented (w : PanicWriter) (n : Z) : PanicWriter :=
  {| inner := inner w; spaces := (spaces w + n) mod 2 ^ IntSize |}.

(** [IndentWrites], lines 90-92. *)
Definition IndentWrites {A : Type} (w : PanicWriter) (n : Z)
    (writesFunc : PanicWriter → M A) : M A :=
  writesFunc (indented w n).

(** [Write] of a [PanicWriterWriter], lines 114-117. *)
Definition PanicWriterWriter_Write (w : PanicWriter) (p : string)
  : M (Z * option error) :=
  bind (Write w p) (λ n, ret (n, None)).

(** [Writer], lines 103-105, and [IndentedWriter], lines 98-100: the
    writer as an [io.Writer]. *)
Definition Writer (w : PanicWriter) : io_Writer :=
  {| io_Write := PanicWriterWriter_Write w |}.

Definition IndentedWriter (w : PanicWriter) (n : Z) : io_Writer :=
  {| io_Write := PanicWriterWriter_Write (indented w n) |}.

End PanicWriter.

Arguments ret {World A} a.
Arguments panic {World A}.
Arguments bind {World A B} m f.
Arguments io_Write {World error} i p.
Arguments inner {World error} p.
Arguments spaces {World error} p.
Arguments NewPanicWriter {World error} writer.
Arguments Write {World error} w p.
Arguments WriteString {World error} w p.
Arguments WriteNewLine {World error} w.
Arguments WriteStringLine {World error} w p.
Arguments indented {World error} w n.
Arguments IndentWrites {World error A} w n writesFunc.
Arguments PanicWriterWriter_Write {World error} w p.
Arguments Writer {World error} w.
Arguments IndentedWriter {World error} w n.

End defineio.

(** * Vocabulary of the specification *)

(** "The first of A.f, B.f, C.f, D.f that is non-zero; if all are zero,
    zero." *)
Fixpoint first_nonzero {A : Type} (is_zero : A → bool) (zero : A)
    (candidates : list A) : A :=
  match candidates with
  | [] => zero
  | x :: candidates =>
      if is_zero x then first_nonzero is_zero zero candidates else x
  end.

Definition zero_uint (n : Z) : bool := (n =? 0)%Z.
Definition zero_string (s : string) : bool := bool_decide (s = "").

(** Two configurations that agree on the exported fields; the unexported
    ones, [providerConfigs] and [configFileLocation], may differ. *)
Definition same_exported (c c' : config.Configuration) : Prop :=
  config.IndentationSize c = config.IndentationSize c'
  ∧ config.PreferredSource c = config.PreferredSource c'.

(** A decimal numeral: one digit or more, nothing else; and its value. *)
Definition is_digit (c : ascii) : bool :=
  ((48 <=? byte_of c) && (byte_of c <=? 57))%Z.

Fixpoint all_digits (s : string) : bool :=
  match s with
  | EmptyString => true
  | String c rest => is_digit c && all_digits rest
  end.

Definition is_numeral (s : string) : bool :=
  negb (bool_decide (s = "")) && all_digits s.

Fixpoint digits_value (acc : Z) (s : string) : Z :=
  match s with
  | EmptyString => acc
  | String c rest => digits_value (acc * 10 + (byte_of c - 48)) rest
  end.

Definition decimal_value (s : string) : Z := digits_value 0 s.

Definition indent_size_variable : string := "DEFINE_APP_INDENT_SIZE".
Definition preferred_source_variable : string := "DEFINE_APP_PREFERRED_SOURCE".

(** The environment in which a variable has a value, and no other is set. *)
Definition env_with (key value : string) : config.Runtime :=
  {| config.environ := {[ key := value ]};
     config.homedir_Expand := λ _, None;
     config.os_Stat := λ _, config.StatNotExist;
     config.ioutil_ReadFile :=
       λ path, inr (config.PathError "open" path "no such file or directory");
     config.json_parse := λ _, inr (json.SyntaxError "unexpected end of JSON input");
     config.registry_Providers := [] |}.

(** Case-insensitive equality on ASCII letters: [strings.EqualFold] on
    strings of ASCII characters. *)
Definition ascii_lower (c : ascii) : ascii :=
  if ((65 <=? byte_of c) && (byte_of c <=? 90))%Z
  then ascii_of_N (N_of_ascii c + 32) else c.

Fixpoint ascii_EqualFold (s t : string) : bool :=
  match s, t with
  | EmptyString, EmptyString => true
  | String c s, String d t =>
      bool_decide (ascii_lower c = ascii_lower d) && ascii_EqualFold s t
  | _, _ => false
  end.

Section glosbe_vocabulary.
Variable EqualFold : string → string → bool.

(** "Items with no separate phrase, or whose phrase matches the looked-up
    phrase case-insensitively." *)
Definition is_definition_item (phrase : string) (it : glosbe.item.t) : bool :=
  match glosbe.item.Phrase it with
  | None => true
  | Some p => EqualFold (glosbe.Text p) phrase
  end.

(** A response in which no pointer that [toResult] follows is [nil]: no
    item is, and no meaning of an item that contributes senses. *)
Definition no_nil_meaning (it : glosbe.item.t) : bool :=
  forallb (λ m : option glosbe.text, bool_decide (is_Some m))
    (glosbe.item.Meanings it).

Definition item_present (phrase : string) (it : option glosbe.item.t) : bool :=
  match it with
  | None => false
  | Some it => implb (is_definition_item phrase it) (no_nil_meaning it)
  end.

Definition no_nil_item (r : glosbe.apiResult) : bool :=
  forallb (item_present (glosbe.Phrase r)) (glosbe.TUC r).

(** What one item contributes: each of its meanings as a sense of one
    definition, or its phrase as a synonym. *)
Definition item_senses (phrase : string) (it : glosbe.item.t)
  : list source.SenseValue :=
  if is_definition_item phrase it
  then (λ m, source.sense [glosbe.Text m]) <$> omap id (glosbe.item.Meanings it)
  else [].

Definition item_synonyms (phrase : string) (it : glosbe.item.t) : list string :=
  if is_definition_item phrase it then []
  else match glosbe.item.Phrase it with
       | Some p => if bool_decide (glosbe.Text p = "") then [] else [glosbe.Text p]
       | None => []
       end.

End glosbe_vocabulary.

(** The file that [NewFromRuntime] selects for loading, if any. *)
Definition selected_config_file (rt : config.Runtime) (flags : config.FlagSet)
    (defaultConfigFileLocation : string) (defaults : config.Configuration)
  : string :=
  (config.resolveConfigFile rt
     (config.flags_Parse flags (config.initializeCommandLineConfig flags)).1
     (config.set_configFileLocation defaults defaultConfigFileLocation)).1.






(** The provider configurations attached to a configuration, under any
    key, and those of them that have a field. *)
Definition attached (m : gmap string (option registry.Configuration))
    (p : registry.Configuration) : Prop :=
  ∃ k, m !! k = Some (Some p).

Definition has_fields (p : registry.Configuration) : Prop :=
  registry.Fields p ≠ [].

(** Different configurations with fields report different keys. *)
Definition distinct_keys (m : gmap string (option registry.Configuration))
  : Prop :=
  ∀ p q, attached m p → attached m q → has_fields p → has_fields q →
         registry.JSONKey p = registry.JSONKey q → p = q.


(** The provider configurations that [MarshalJSON] writes: those that are
    not [nil] and have a field. *)
Definition written (v : option registry.Configuration)
  : option (option registry.Configuration) :=
  match v with
  | Some p => if decide (List.length (registry.Fields p) < 1)%nat then None
              else Some (Some p)
  | None => None
  end.


(** ** Sample values *)

Definition sample_flags : config.Configuration :=
  {| config.IndentationSize := 0; config.PreferredSource := "";
     config.providerConfigs := ∅;
     config.configFileLocation := "/etc/define.json" |}.

Definition sample_file : config.Configuration :=
  {| config.IndentationSize := 8; config.PreferredSource := "";
     config.providerConfigs := ∅; config.configFileLocation := "" |}.

Definition sample_env : config.Configuration :=
  {| config.IndentationSize := 4; config.PreferredSource := "Glosbe";
     config.providerConfigs := ∅; config.configFileLocation := "" |}.

Definition sample_defaults : config.Configuration :=
  {| config.IndentationSize := 2; config.PreferredSource := "Glosbe";
     config.providerConfigs := ∅;
     config.configFileLocation := "~/.define.conf.json" |}.

Definition sample_merged : config.Configuration :=
  {| config.IndentationSize := 8; config.PreferredSource := "Glosbe";
     config.providerConfigs := ∅; config.configFileLocation := "" |}.

Definition sample_oxford_no_id : oxford.config :=
  {| oxford.AppID := ""; oxford.AppKey := "secret" |}.

Definition sample_oxford_no_key : oxford.config :=
  {| oxford.AppID := "id"; oxford.AppKey := "" |}.

Definition sample_oxford : oxford.config :=
  {| oxford.AppID := "id"; oxford.AppKey := "secret" |}.

Definition sample_response : glosbe.apiResult :=
  {| glosbe.Result := "ok";
     glosbe.TUC :=
       [Some {| glosbe.item.Meanings :=
                  [Some {| glosbe.Language := "en";
                           glosbe.Text := "a small domesticated feline" |}];
                glosbe.item.Phrase := None;
                glosbe.item.Authors := [1%Z] |};
        Some {| glosbe.item.Meanings := [];
                glosbe.item.Phrase :=
                  Some {| glosbe.Language := "en"; glosbe.Text := "kitty" |};
                glosbe.item.Authors := [] |}];
     glosbe.Phrase := "cat";
     glosbe.Dest := "en" |}.

Definition sample_null_response : glosbe.apiResult :=
  {| glosbe.Result := "ok"; glosbe.TUC := [None];
     glosbe.Phrase := "cat"; glosbe.Dest := "en" |}.

Definition sample_nil_meaning : glosbe.apiResult :=
  {| glosbe.Result := "ok";
     glosbe.TUC :=
       [Some {| glosbe.item.Meanings := [None];
                glosbe.item.Phrase :=
                  Some {| glosbe.Language := "en"; glosbe.Text := "Cat" |};
                glosbe.item.Authors := [] |}];
     glosbe.Phrase := "cat";
     glosbe.Dest := "en" |}.

Definition sample_empty_result : source.ResultValue :=
  {| source.Head := "cat"; source.Lang := "en"; source.EntryVals := [] |}.

Definition sample_hollow_result : source.ResultValue :=
  {| source.Head := "cat"; source.Lang := "en";
     source.EntryVals :=
       [glosbe.glosbeEntry
          {| source.PronunciationVal := ""; source.AudioFileVal := "";
             source.SenseVals := [] |}
          {| source.SynonymVals := []; source.AntonymVals := [] |}] |}.

Definition sample_dictionary : source.DictionaryEntryValue :=
  {| source.PronunciationVal := ""; source.AudioFileVal := "";
     source.SenseVals := [source.sense ["a small domesticated feline"]] |}.

Definition sample_result : source.ResultValue :=
  {| source.Head := "cat"; source.Lang := "en";
     source.EntryVals :=
       [{| source.dictionary := Some sample_dictionary;
           source.thesaurus := None |}] |}.

(** A world without a network: requests are built and not answered. *)
Definition offline : glosbe.World :=
  {| glosbe.http_NewRequest :=
       λ method url,
         inl {| glosbe.Method := method; glosbe.URL := url; glosbe.Header := ∅ |};
     glosbe.httpClient_Do := λ _, inr (source.LibraryError "dial tcp: no route to host");
     glosbe.json_Unmarshal := λ _, inr (source.LibraryError "unexpected end of JSON input") |}.

(** A command line without flags, and one that names a config file. *)
Definition no_flags : config.FlagSet :=
  {| config.flag_config_file := None; config.flag_indent_size := None;
     config.flag_preferred_source := None; config.flag_parse_error := None |}.

Definition config_file_flag : config.FlagSet :=
  {| config.flag_config_file := Some "/etc/define.json";
     config.flag_indent_size := None;
     config.flag_preferred_source := None; config.flag_parse_error := None |}.

(** A runtime without files, and one whose files all hold an unfinished
    document. *)
Definition no_files : config.Runtime :=
  env_with indent_size_variable "4".

Definition malformed_files : config.Runtime :=
  {| config.environ := ∅;
     config.homedir_Expand := λ _, None;
     config.os_Stat := λ _, config.StatOK;
     config.ioutil_ReadFile := λ _, inl "{";
     config.json_parse := λ _, inr (json.SyntaxError "unexpected end of JSON input");
     config.registry_Providers := [] |}.

(** A registry of two providers: Oxford, not yet configured, and a provider
    whose configuration is a struct without fields. *)
Definition sample_fieldless : registry.Configuration :=
  {| registry.JSONKey := "Plain"; registry.Fields := [] |}.

Definition sample_registry : list registry.Configuration :=
  [oxford.to_Configuration {| oxford.AppID := ""; oxford.AppKey := "" |};
   sample_fieldless].


Definition sample_config_both : config.Configuration :=
  {| config.IndentationSize := 4; config.PreferredSource := "OxfordDictionary";
     config.providerConfigs :=
       {[ "OxfordDictionary" := Some (oxford.to_Configuration sample_oxford);
          "Plain" := Some sample_fieldless ]};
     config.configFileLocation := "" |}.

(** A world in which the service answers with a document without
    translations. *)
Definition sample_no_translation : glosbe.apiResult :=
  {| glosbe.Result := "ok"; glosbe.TUC := [];
     glosbe.Phrase := "xyzzy"; glosbe.Dest := "en" |}.

Definition no_translation : glosbe.World :=
  {| glosbe.http_NewRequest :=
       λ method url,
         inl {| glosbe.Method := method; glosbe.URL := url; glosbe.Header := ∅ |};
     glosbe.httpClient_Do :=
       λ _, inl {| source.StatusCode := 200;
                   source.ContentType := "application/json";
                   source.Body := inl "{}" |};
     glosbe.json_Unmarshal := λ _, inl sample_no_translation |}.

(** A command line that does not parse, one that sets the indentation,
    and a runtime whose files hold a document that sets the preferred
    source; the configuration that this document decodes to. *)
Definition bad_flags : config.FlagSet :=
  {| config.flag_config_file := None; config.flag_indent_size := None;
     config.flag_preferred_source := None;
     config.flag_parse_error := Some (config.FlagError "unknown flag: --colour") |}.

Definition indent_flag : config.FlagSet :=
  {| config.flag_config_file := None; config.flag_indent_size := Some 6%Z;
     config.flag_preferred_source := None; config.flag_parse_error := None |}.

Definition source_in_file : config.Runtime :=
  {| config.environ := ∅;
     config.homedir_Expand := λ _, None;
     config.os_Stat := λ _, config.StatOK;
     config.ioutil_ReadFile := λ _, inl "{...}";
     config.json_parse :=
       λ _, inl (json.JObject [("PreferredSource", json.JString "Webster")]);
     config.registry_Providers := [] |}.

Definition sample_file_webster : config.Configuration :=
  {| config.IndentationSize := 0; config.PreferredSource := "Webster";
     config.providerConfigs := ∅; config.configFileLocation := "" |}.




(** * Vocabulary and sample values of the further properties *)

(** The indentation that a writer puts before what it writes. *)
Definition indentation {World error : Type}
    (w : defineio.PanicWriter World error) : string :=
  defineio.repeat_string " " (Z.to_nat (defineio.spaces w)).

(** A writer that takes every write whole: it reports the length of the
    data, no error, and [written] shows the data after what was there. *)
Definition appends {World error : Type} (written : World → string)
    (writer : defineio.io_Writer World error) : Prop :=
  ∀ data world,
    ∃ world',
      defineio.io_Write writer data world
      = (world', Some (Z.of_nat (String.length data), None))
      ∧ written world' = written world +:+ data.

(** A buffer in memory, and a writer that fails. *)
Definition buffer : defineio.io_Writer string unit :=
  {| defineio.io_Write data world :=
       (world +:+ data, Some (Z.of_nat (String.length data), None)) |}.

Definition closed : defineio.io_Writer string unit :=
  {| defineio.io_Write data world := (world, Some (0%Z, Some ())) |}.

(** The separators of a query, which an escaped string is free of. *)
Definition separator (c : ascii) : Prop :=
  c = "&"%char ∨ c = "="%char ∨ c = ";"%char.

(** What [parseQuery] does with a well-formed piece, and the piece that
    [Encode] writes for a key and one of its values. *)
Definition add_value (m : gmap string (list string)) (kv : string * string)
  : gmap string (list string) :=
  <[kv.1 := default [] (m !! kv.1) ++ [kv.2]]> m.

Definition encode_pair (kv : string * string) : string :=
  url.QueryEscape kv.1 +:+ "=" +:+ url.QueryEscape kv.2.

Definition no_empty_value (v : gmap string (list string)) : Prop :=
  ∀ k vals, v !! k = Some vals → vals ≠ [].

(** A file that holds no setting: no byte, or the document [null], or the
    object without members. *)
Definition without_content (rt : config.Runtime) (contents : string) : Prop :=
  contents = ""
  ∨ config.json_parse rt contents = inl json.JNull
  ∨ config.json_parse rt contents = inl (json.JObject []).

(** [MarshalJSON] when its loop ranges over the entries of the provider
    map in the order of the list. *)
Definition MarshalJSON_in_order (c : config.Configuration)
    (entries : list (string * option registry.Configuration)) : json.json :=
  json.Marshal_map
    (foldl (λ configMap kv, config.marshal_provider kv.1 kv.2 configMap)
       (config.structs_Map c) entries).

(** A command line that sets the indentation to zero, and a runtime whose
    files are empty. *)
Definition zero_indent_flag : config.FlagSet :=
  {| config.flag_config_file := None; config.flag_indent_size := Some 0%Z;
     config.flag_preferred_source := None; config.flag_parse_error := None |}.

Definition empty_files : config.Runtime :=
  {| config.environ := ∅;
     config.homedir_Expand := λ _, None;
     config.os_Stat := λ _, config.StatOK;
     config.ioutil_ReadFile := λ _, inl "";
     config.json_parse := λ _, inr (json.SyntaxError "unexpected end of JSON input");
     config.registry_Providers := [] |}.

(** A registry whose Oxford configuration is set, a document whose Oxford
    section is [null], and one whose Oxford section gives a number for the
    application id. *)
Definition sample_registry_set : list registry.Configuration :=
  [oxford.to_Configuration sample_oxford].

Definition sample_null_section : json.json :=
  json.JObject [("OxfordDictionary", json.JNull)].

Definition sample_mistyped_section : json.json :=
  json.JObject
    [("OxfordDictionary", json.JObject [("AppID", json.JInt 5)])].

(** A runtime whose registry holds the Oxford configuration and whose
    files hold the document with the [null] section. *)
Definition null_section_files : config.Runtime :=
  {| config.environ := ∅;
     config.homedir_Expand := λ _, None;
     config.os_Stat := λ _, config.StatOK;
     config.ioutil_ReadFile := λ _, inl "{...}";
     config.json_parse := λ _, inl sample_null_section;
     config.registry_Providers := sample_registry |}.

(** The same runtime with the document whose Oxford section gives a
    number for the application id. *)
Definition mistyped_section_files : config.Runtime :=
  {| config.environ := ∅;
     config.homedir_Expand := λ _, None;
     config.os_Stat := λ _, config.StatOK;
     config.ioutil_ReadFile := λ _, inl "{...}";
     config.json_parse := λ _, inl sample_mistyped_section;
     config.registry_Providers := sample_registry |}.




(** An environment with the Oxford credentials, and a command line that
    gives an empty application id. *)
Definition oxford_environment : config.Runtime :=
  {| config.environ :=
       {[ "OXFORD_DICTIONARY_APP_ID" := "id";
          "OXFORD_DICTIONARY_APP_KEY" := "secret" ]};
     config.homedir_Expand := λ _, None;
     config.os_Stat := λ _, config.StatNotExist;
     config.ioutil_ReadFile :=
       λ path, inr (config.PathError "open" path "no such file or directory");
     config.json_parse := λ _, inr (json.SyntaxError "unexpected end of JSON input");
     config.registry_Providers := [] |}.

Definition no_oxford_flags : oxford.FlagSet :=
  {| oxford.flag_app_id := None; oxford.flag_app_key := None |}.

Definition empty_app_id_flag : oxford.FlagSet :=
  {| oxford.flag_app_id := Some ""; oxford.flag_app_key := None |}.

(** * Properties *)

(** ** Merging configurations *)

Lemma merge_loop_error merged confs :
  (config.merge_loop merged confs).2 = None.
Proof.
  revert merged. induction confs as [|conf confs IH]; intros merged; [done|].
  simpl. apply IH.
Qed.

Lemma merge_loop_IndentationSize merged confs :
  config.IndentationSize (config.merge_loop merged confs).1 =
  first_nonzero zero_uint 0%Z
    (config.IndentationSize merged :: (config.IndentationSize <$> confs)).
Proof.
  revert merged. induction confs as [|conf confs IH]; intros merged.
  - simpl. unfold zero_uint.
    destruct (Z.eqb_spec (config.IndentationSize merged) 0); done.
  - simpl config.merge_loop. rewrite IH.
    cbn [fmap list_fmap first_nonzero config.mergo_Merge fst
         config.IndentationSize].
    unfold zero_uint.
    destruct (Z.eqb_spec (config.IndentationSize merged) 0) as [Hm|Hm],
             (Z.eqb_spec (config.IndentationSize conf) 0) as [Hc|Hc];
      cbn [negb andb]; rewrite ?Hm, ?Hc; try done.
    + destruct (Z.eqb_spec (config.IndentationSize conf) 0); done.
    + destruct (Z.eqb_spec (config.IndentationSize merged) 0); done.
    + destruct (Z.eqb_spec (config.IndentationSize merged) 0); done.
Qed.

Lemma merge_loop_PreferredSource merged confs :
  config.PreferredSource (config.merge_loop merged confs).1 =
  first_nonzero zero_string ""
    (config.PreferredSource merged :: (config.PreferredSource <$> confs)).
Proof.
  revert merged. induction confs as [|conf confs IH]; intros merged.
  - simpl. unfold zero_string. case_bool_decide; done.
  - simpl config.merge_loop. rewrite IH.
    cbn [fmap list_fmap first_nonzero config.mergo_Merge fst
         config.PreferredSource].
    unfold zero_string.
    destruct (decide (config.PreferredSource merged = "")) as [Hm|Hm],
             (decide (config.PreferredSource conf = "")) as [Hc|Hc];
      rewrite ?(bool_decide_eq_true_2 _ Hm), ?(bool_decide_eq_false_2 _ Hm),
        ?(bool_decide_eq_true_2 _ Hc), ?(bool_decide_eq_false_2 _ Hc);
      cbn [negb andb];
      rewrite ?(bool_decide_eq_true_2 _ Hm), ?(bool_decide_eq_false_2 _ Hm),
        ?(bool_decide_eq_true_2 _ Hc), ?(bool_decide_eq_false_2 _ Hc);
      done.
Qed.

Lemma merge_loop_private merged confs :
  config.providerConfigs (config.merge_loop merged confs).1 =
    config.providerConfigs merged
  ∧ config.configFileLocation (config.merge_loop merged confs).1 =
    config.configFileLocation merged.
Proof.
  revert merged. induction confs as [|conf confs IH]; intros merged; [done|].
  simpl config.merge_loop.
  split; (etrans; [apply IH | done]).
Qed.

(** C1 (as amended).  For four configurations merged in the order flags,
    file, environment, defaults, each exported field ([IndentationSize],
    [PreferredSource]) of the result is the first value among the four that
    is not zero, and zero when all four are; the merge reports no error.
    The unexported fields ([providerConfigs], [configFileLocation]) are not
    merged: they hold their zero value in the result whatever the sources
    hold. *)
Theorem mergeConfigurations_precedence (A B C D : config.Configuration) :
  (config.mergeConfigurations [A; B; C; D]).2 = None
  ∧ config.IndentationSize (config.mergeConfigurations [A; B; C; D]).1 =
      first_nonzero zero_uint 0%Z (config.IndentationSize <$> [A; B; C; D])
  ∧ config.PreferredSource (config.mergeConfigurations [A; B; C; D]).1 =
      first_nonzero zero_string "" (config.PreferredSource <$> [A; B; C; D])
  ∧ config.providerConfigs (config.mergeConfigurations [A; B; C; D]).1 = ∅
  ∧ config.configFileLocation (config.mergeConfigurations [A; B; C; D]).1 = "".
Proof.
  unfold config.mergeConfigurations.
  split; [apply merge_loop_error|].
  split; [by rewrite merge_loop_IndentationSize|].
  split; [by rewrite merge_loop_PreferredSource|].
  apply (merge_loop_private config.zero).
Qed.

(** C1 (as stated) fails on the unexported field [configFileLocation]: the
    first non-zero value among the four sources is the one of the flags,
    and the merged configuration holds the empty string. *)
Lemma mergeConfigurations_skips_configFileLocation :
  first_nonzero zero_string ""
    (config.configFileLocation
       <$> [sample_flags; sample_file; sample_env; sample_defaults])
    = "/etc/define.json"
  ∧ config.configFileLocation
      (config.mergeConfigurations
         [sample_flags; sample_file; sample_env; sample_defaults]).1 = ""
  ∧ config.configFileLocation
      (config.mergeConfigurations
         [sample_flags; sample_file; sample_env; sample_defaults]).1
    ≠ first_nonzero zero_string ""
        (config.configFileLocation
           <$> [sample_flags; sample_file; sample_env; sample_defaults]).
Proof. split; [done|]. split; [done|]. discriminate. Qed.

Lemma first_nonzero_again {A : Type} (is_zero : A → bool) (zero : A)
    (candidates : list A) :
  first_nonzero is_zero zero
    (first_nonzero is_zero zero candidates :: candidates)
  = first_nonzero is_zero zero candidates.
Proof.
  simpl. by destruct (is_zero (first_nonzero is_zero zero candidates)).
Qed.

Lemma Configuration_eq (c c' : config.Configuration) :
  config.IndentationSize c = config.IndentationSize c' →
  config.PreferredSource c = config.PreferredSource c' →
  config.providerConfigs c = config.providerConfigs c' →
  config.configFileLocation c = config.configFileLocation c' →
  c = c'.
Proof. destruct c, c'. simpl. by intros -> -> -> ->. Qed.

Lemma mergeConfigurations_IndentationSize confs :
  config.IndentationSize (config.mergeConfigurations confs).1
  = first_nonzero zero_uint 0%Z (config.IndentationSize <$> confs).
Proof. unfold config.mergeConfigurations. by rewrite merge_loop_IndentationSize. Qed.

Lemma mergeConfigurations_PreferredSource confs :
  config.PreferredSource (config.mergeConfigurations confs).1
  = first_nonzero zero_string "" (config.PreferredSource <$> confs).
Proof. unfold config.mergeConfigurations. by rewrite merge_loop_PreferredSource. Qed.

(** C8.  Two merges of the same four sources give equal results.  What
    the merge returns is a function of the sources, and of their exported
    fields alone: sources that agree with [A], [B], [C], [D] on the
    exported fields, whatever their unexported fields hold, merge to the
    configuration and the error that [A], [B], [C], [D] merge to; and that
    result is the configuration of the first non-zero exported values,
    with empty unexported fields, and no error. *)
Theorem mergeConfigurations_deterministic
    (A B C D A' B' C' D' : config.Configuration) :
  same_exported A A' → same_exported B B' →
  same_exported C C' → same_exported D D' →
  config.mergeConfigurations [A'; B'; C'; D']
  = config.mergeConfigurations [A; B; C; D]
  ∧ config.mergeConfigurations [A; B; C; D]
    = ({| config.IndentationSize :=
            first_nonzero zero_uint 0%Z
              (config.IndentationSize <$> [A; B; C; D]);
          config.PreferredSource :=
            first_nonzero zero_string ""
              (config.PreferredSource <$> [A; B; C; D]);
          config.providerConfigs := ∅;
          config.configFileLocation := "" |}, None).
Proof.
  intros [HA1 HA2] [HB1 HB2] [HC1 HC2] [HD1 HD2].
  assert (Hclosed : ∀ confs,
    config.mergeConfigurations confs
    = ({| config.IndentationSize :=
            first_nonzero zero_uint 0%Z (config.IndentationSize <$> confs);
          config.PreferredSource :=
            first_nonzero zero_string "" (config.PreferredSource <$> confs);
          config.providerConfigs := ∅;
          config.configFileLocation := "" |}, None)).
  { intros confs. apply injective_projections.
    - apply Configuration_eq; cbn [fst config.IndentationSize
        config.PreferredSource config.providerConfigs
        config.configFileLocation].
      + apply mergeConfigurations_IndentationSize.
      + apply mergeConfigurations_PreferredSource.
      + apply (merge_loop_private config.zero).
      + apply (merge_loop_private config.zero).
    - apply merge_loop_error. }
  split; [|apply Hclosed].
  rewrite !Hclosed. cbn [fmap list_fmap].
  by rewrite HA1, HA2, HB1, HB2, HC1, HC2, HD1, HD2.
Qed.

Lemma mergeConfigurations_deterministic_witness :
  config.mergeConfigurations
    [config.set_providerConfigs sample_flags
       {[ "OxfordDictionary" := Some (oxford.to_Configuration sample_oxford) ]};
     sample_file; sample_env;
     {| config.IndentationSize := 2; config.PreferredSource := "Glosbe";
        config.providerConfigs := ∅; config.configFileLocation := "" |}]
  = config.mergeConfigurations
      [sample_flags; sample_file; sample_env; sample_defaults]
  ∧ config.mergeConfigurations
      [sample_flags; sample_file; sample_env; sample_defaults]
    = (sample_merged, None).
Proof.
  apply (mergeConfigurations_deterministic
           sample_flags sample_file sample_env sample_defaults);
    by split.
Defined.

(** X1.  The merge is idempotent: merging the four sources again, on top
    of the configuration their merge gave, gives that configuration. *)
Theorem mergeConfigurations_idempotent (A B C D : config.Configuration) :
  config.mergeConfigurations
    ((config.mergeConfigurations [A; B; C; D]).1 :: [A; B; C; D])
  = config.mergeConfigurations [A; B; C; D].
Proof.
  apply injective_projections.
  - apply Configuration_eq.
    + rewrite (mergeConfigurations_IndentationSize (_ :: _)), fmap_cons.
      rewrite mergeConfigurations_IndentationSize.
      apply first_nonzero_again.
    + rewrite (mergeConfigurations_PreferredSource (_ :: _)), fmap_cons.
      rewrite mergeConfigurations_PreferredSource.
      apply first_nonzero_again.
    + unfold config.mergeConfigurations.
      by rewrite !(proj1 (merge_loop_private config.zero _)).
    + unfold config.mergeConfigurations.
      by rewrite !(proj2 (merge_loop_private config.zero _)).
  - unfold config.mergeConfigurations. by rewrite !merge_loop_error.
Qed.

(** ** The Oxford provider *)

(** C3.  [Provide] on an Oxford configuration: the error names [AppID] when
    the application id is empty, whatever the key is; it names [AppKey] when
    the id is not empty and the key is; otherwise there is no error and the
    source is the client built from the id and the key. *)
Theorem Provide_required_config (Source : Type)
    (New : unit → string → string → Source) (c : oxford.config) :
  (oxford.AppID c = "" →
   oxford.Provide Source New (oxford.to_Configuration c)
   = Some (None, Some {| oxford.Key := "AppID" |}))
  ∧ (oxford.AppID c ≠ "" → oxford.AppKey c = "" →
     oxford.Provide Source New (oxford.to_Configuration c)
     = Some (None, Some {| oxford.Key := "AppKey" |}))
  ∧ (oxford.AppID c ≠ "" → oxford.AppKey c ≠ "" →
     oxford.Provide Source New (oxford.to_Configuration c)
     = Some (Some (New () (oxford.AppID c) (oxford.AppKey c)), None)).
Proof.
  destruct c as [id key]. unfold oxford.Provide. simpl.
  repeat split; intros; repeat case_bool_decide; simplify_eq; done.
Qed.

Lemma Provide_required_config_witness :
  oxford.Provide (string * string) (λ _ id key, (id, key))
    (oxford.to_Configuration sample_oxford_no_id)
  = Some (None, Some {| oxford.Key := "AppID" |})
  ∧ oxford.Provide (string * string) (λ _ id key, (id, key))
      (oxford.to_Configuration sample_oxford_no_key)
    = Some (None, Some {| oxford.Key := "AppKey" |})
  ∧ oxford.Provide (string * string) (λ _ id key, (id, key))
      (oxford.to_Configuration sample_oxford)
    = Some (Some ("id", "secret"), None).
Proof.
  split; [|split].
  - destruct (Provide_required_config (string * string) (λ _ id key, (id, key))
                sample_oxford_no_id) as (Hid & _).
    apply Hid. reflexivity.
  - destruct (Provide_required_config (string * string) (λ _ id key, (id, key))
                sample_oxford_no_key) as (_ & Hkey & _).
    apply Hkey; [discriminate|reflexivity].
  - destruct (Provide_required_config (string * string) (λ _ id key, (id, key))
                sample_oxford) as (_ & _ & Hboth).
    apply Hboth; discriminate.
Defined.

(** ** The environment layer *)

Section ParseUint.
Local Open Scope Z_scope.

Lemma digit_of_digit c :
  is_digit c = true →
  strconv.digit_of (byte_of c) = Some (byte_of c - 48)
  ∧ 0 <= byte_of c - 48 <= 9.
Proof.
  unfold is_digit, strconv.digit_of. intros H. rewrite H.
  apply andb_true_iff in H as [?%Z.leb_le ?%Z.leb_le]. split; [done|lia].
Qed.

Lemma digit_of_other c :
  is_digit c = false →
  match strconv.digit_of (byte_of c) with
  | None => True
  | Some d => 10 <= d
  end.
Proof.
  unfold is_digit, strconv.digit_of. intros ->.
  destruct (_ && _) eqn:H; [|done].
  apply andb_true_iff in H as [?%Z.leb_le ?%Z.leb_le]. lia.
Qed.

Lemma digits_value_le s acc :
  all_digits s = true → 0 <= acc → acc <= digits_value acc s.
Proof.
  revert acc. induction s as [|c s IH]; intros acc Hs Hacc; [simpl; lia|].
  simpl in Hs. apply andb_true_iff in Hs as [Hc Hs].
  apply digit_of_digit in Hc as [_ Hc]. simpl.
  etrans; [|apply IH]; [lia|done|lia].
Qed.

(** On digits the loop computes the value, or stops at the first
    overflow. *)
Lemma parse_loop_digits s n :
  all_digits s = true → 0 <= n <= maxUint64 →
  strconv.parse_loop 10 1844674407370955162 18446744073709551615 s n =
  if digits_value n s <=? maxUint64 then (digits_value n s, None)
  else (18446744073709551615, Some strconv.ErrRange).
Proof.
  unfold maxUint64.
  revert n. induction s as [|c s IH]; intros n Hs Hn.
  - simpl. destruct (Z.leb_spec n (2 ^ 64 - 1)); [done|lia].
  - simpl in Hs. apply andb_true_iff in Hs as [Hc Hs].
    pose proof (digits_value_le s (n * 10 + (byte_of c - 48)) Hs) as Hle.
    apply digit_of_digit in Hc as [Hd Hc].
    cbn [strconv.parse_loop digits_value]. rewrite Hd.
    destruct (Z.leb_spec 10 (byte_of c - 48)); [lia|].
    destruct (Z.leb_spec 1844674407370955162 n).
    { destruct (Z.leb_spec (digits_value (n * 10 + (byte_of c - 48)) s)
                  (2 ^ 64 - 1)); [lia|done]. }
    unfold wrap64. rewrite (Z.mod_small (n * 10)) by lia.
    destruct (Z.le_gt_cases (2 ^ 64) (n * 10 + (byte_of c - 48))) as [Hov|Hov].
    + assert ((n * 10 + (byte_of c - 48)) mod 2 ^ 64
              = n * 10 + (byte_of c - 48) - 2 ^ 64) as ->.
      { symmetry. apply (Z.mod_unique _ _ 1); lia. }
      destruct (Z.ltb_spec (n * 10 + (byte_of c - 48) - 2 ^ 64) (n * 10));
        [|lia].
      cbn [orb].
      destruct (Z.leb_spec (digits_value (n * 10 + (byte_of c - 48)) s)
                  (2 ^ 64 - 1)); [lia|done].
    + rewrite Z.mod_small by lia.
      destruct (Z.ltb_spec (n * 10 + (byte_of c - 48)) (n * 10)); [lia|].
      destruct (Z.ltb_spec 18446744073709551615 (n * 10 + (byte_of c - 48)));
        [lia|].
      cbn [orb]. apply IH; [done|lia].
Qed.

(** On anything else the loop reports an error. *)
Lemma parse_loop_other s n :
  all_digits s = false →
  (strconv.parse_loop 10 1844674407370955162 18446744073709551615 s n).2
  ≠ None.
Proof.
  revert n. induction s as [|c s IH]; intros n Hs; [done|].
  simpl in Hs. cbn [strconv.parse_loop].
  destruct (is_digit c) eqn:Hc.
  - apply digit_of_digit in Hc as [-> Hc].
    destruct (Z.leb_spec 10 (byte_of c - 48)); [done|].
    destruct (Z.leb_spec 1844674407370955162 n); [done|].
    destruct (_ || _); [done|]. by apply IH.
  - apply digit_of_other in Hc.
    destruct (strconv.digit_of (byte_of c)) as [d|]; [|done].
    destruct (Z.leb_spec 10 d); [done|lia].
Qed.

Lemma ParseUint_10_0 s :
  s ≠ "" →
  strconv.ParseUint s 10 0 =
  strconv.parse_loop 10 1844674407370955162 18446744073709551615 s 0.
Proof. intros Hs. unfold strconv.ParseUint. by destruct (decide (s = "")). Qed.

Lemma ParseUint_numeral s :
  is_numeral s = true →
  strconv.ParseUint s 10 0 =
  if decimal_value s <=? maxUint then (decimal_value s, None)
  else (18446744073709551615, Some strconv.ErrRange).
Proof.
  unfold is_numeral. intros [Hne Hs]%andb_true_iff.
  apply negb_true_iff, bool_decide_eq_false in Hne.
  rewrite ParseUint_10_0 by done.
  apply parse_loop_digits; [done|]. unfold maxUint64. lia.
Qed.

Lemma ParseUint_other s :
  is_numeral s = false → (strconv.ParseUint s 10 0).2 ≠ None.
Proof.
  unfold is_numeral. intros H.
  destruct (decide (s = "")) as [->|Hne]; [done|].
  rewrite bool_decide_eq_false_2 in H by done.
  rewrite ParseUint_10_0 by done. by apply parse_loop_other.
Qed.

Lemma decimal_value_nonneg s : is_numeral s = true → 0 <= decimal_value s.
Proof.
  intros [_ Hs]%andb_true_iff. by apply (digits_value_le s 0).
Qed.

End ParseUint.

(** C10 (as amended).  The environment layer leaves [IndentationSize] at
    zero when DEFINE_APP_INDENT_SIZE is unset, when its value is not a
    decimal numeral (empty, non-numeric, signed and so negative), and also
    when the numeral is larger than the largest [uint]; it sets
    [IndentationSize] to the value of the numeral otherwise.
    [PreferredSource] is the value of DEFINE_APP_PREFERRED_SOURCE as it
    is, empty or not. *)
Theorem initializeEnvironmentConfig_spec (rt : config.Runtime) :
  (config.environ rt !! indent_size_variable = None →
   config.IndentationSize (config.initializeEnvironmentConfig rt) = 0%Z)
  ∧ (is_numeral (config.os_Getenv rt indent_size_variable) = false →
     config.IndentationSize (config.initializeEnvironmentConfig rt) = 0%Z)
  ∧ (∀ rest, config.os_Getenv rt indent_size_variable = String "-" rest →
     config.IndentationSize (config.initializeEnvironmentConfig rt) = 0%Z)
  ∧ (is_numeral (config.os_Getenv rt indent_size_variable) = true →
     (maxUint < decimal_value (config.os_Getenv rt indent_size_variable))%Z →
     config.IndentationSize (config.initializeEnvironmentConfig rt) = 0%Z)
  ∧ (is_numeral (config.os_Getenv rt indent_size_variable) = true →
     (decimal_value (config.os_Getenv rt indent_size_variable) <= maxUint)%Z →
     config.IndentationSize (config.initializeEnvironmentConfig rt)
     = decimal_value (config.os_Getenv rt indent_size_variable))
  ∧ config.PreferredSource (config.initializeEnvironmentConfig rt)
    = config.os_Getenv rt preferred_source_variable.
Proof.
  assert (is_numeral (config.os_Getenv rt indent_size_variable) = false →
          config.IndentationSize (config.initializeEnvironmentConfig rt) = 0%Z)
    as Hother.
  { intros H%ParseUint_other. unfold config.initializeEnvironmentConfig.
    fold indent_size_variable.
    destruct (strconv.ParseUint _ 10 0) as [val [err|]]; done. }
  split; [|split; [done|split; [|split; [|split]]]].
  - intros Hunset. apply Hother. unfold config.os_Getenv. by rewrite Hunset.
  - intros rest Hneg. apply Hother. by rewrite Hneg.
  - intros Hnum Hbig. unfold config.initializeEnvironmentConfig.
    fold indent_size_variable. rewrite (ParseUint_numeral _ Hnum).
    destruct (Z.leb_spec (decimal_value (config.os_Getenv rt indent_size_variable))
                maxUint); [lia|done].
  - intros Hnum Hfits. unfold config.initializeEnvironmentConfig.
    fold indent_size_variable. rewrite (ParseUint_numeral _ Hnum).
    pose proof (decimal_value_nonneg _ Hnum).
    destruct (Z.leb_spec (decimal_value (config.os_Getenv rt indent_size_variable))
                maxUint); [|lia].
    cbn [config.set_PreferredSource config.set_IndentationSize
         config.IndentationSize].
    apply Z.mod_small. unfold maxUint, IntSize in *. lia.
  - unfold config.initializeEnvironmentConfig.
    by destruct (strconv.ParseUint _ 10 0) as [val [err|]].
Qed.

Lemma initializeEnvironmentConfig_spec_witness :
  config.IndentationSize
    (config.initializeEnvironmentConfig (env_with indent_size_variable "4"))
  = 4%Z
  ∧ config.IndentationSize
      (config.initializeEnvironmentConfig (env_with indent_size_variable "-4"))
    = 0%Z
  ∧ config.IndentationSize
      (config.initializeEnvironmentConfig (env_with preferred_source_variable "x"))
    = 0%Z
  ∧ config.IndentationSize
      (config.initializeEnvironmentConfig (env_with indent_size_variable "four"))
    = 0%Z
  ∧ config.IndentationSize
      (config.initializeEnvironmentConfig
         (env_with indent_size_variable "99999999999999999999"))
    = 0%Z.
Proof.
  split; [|split; [|split; [|split]]]; cycle 3.
  - destruct (initializeEnvironmentConfig_spec
                (env_with indent_size_variable "four"))
      as (_ & Hother & _).
    apply Hother. reflexivity.
  - destruct (initializeEnvironmentConfig_spec
                (env_with indent_size_variable "99999999999999999999"))
      as (_ & _ & _ & Hbig & _).
    apply Hbig; [reflexivity | vm_compute; reflexivity].
  - destruct (initializeEnvironmentConfig_spec
                (env_with indent_size_variable "4"))
      as (_ & _ & _ & _ & Hvalue & _).
    apply Hvalue; [reflexivity | vm_compute; discriminate].
  - destruct (initializeEnvironmentConfig_spec
                (env_with indent_size_variable "-4"))
      as (_ & _ & Hnegative & _).
    apply (Hnegative "4"). reflexivity.
  - destruct (initializeEnvironmentConfig_spec
                (env_with preferred_source_variable "x"))
      as (Hunset & _).
    apply Hunset. reflexivity.
Defined.

(** C10 (as stated) fails on a numeral that does not fit a [uint]: the
    value of the variable is set, numeric and not negative, and
    [IndentationSize] is zero, not the value parsed. *)
Lemma initializeEnvironmentConfig_overflow :
  config.environ (env_with indent_size_variable "18446744073709551616")
    !! indent_size_variable = Some "18446744073709551616"
  ∧ is_numeral "18446744073709551616" = true
  ∧ decimal_value "18446744073709551616" = (2 ^ 64)%Z
  ∧ config.IndentationSize
      (config.initializeEnvironmentConfig
         (env_with indent_size_variable "18446744073709551616")) = 0%Z
  ∧ config.IndentationSize
      (config.initializeEnvironmentConfig
         (env_with indent_size_variable "18446744073709551616"))
    ≠ decimal_value "18446744073709551616".
Proof. repeat split; vm_compute; congruence. Qed.

(** ** The Glosbe response *)

Section toResult.
Variable EqualFold : string → string → bool.

Lemma append_meanings_Some meanings senses :
  forallb (λ m : option glosbe.text, bool_decide (is_Some m)) meanings = true →
  glosbe.append_meanings meanings senses =
  Some (senses ++ ((λ m, source.sense [glosbe.Text m]) <$> omap id meanings)).
Proof.
  revert senses. induction meanings as [|[m|] meanings IH]; intros senses H.
  - simpl. by rewrite app_nil_r.
  - simpl in H. simpl. rewrite IH by done. by rewrite <-app_assoc.
  - done.
Qed.

Lemma append_meanings_None meanings senses :
  forallb (λ m : option glosbe.text, bool_decide (is_Some m)) meanings = false →
  glosbe.append_meanings meanings senses = None.
Proof.
  revert senses. induction meanings as [|[m|] meanings IH]; intros senses H.
  - done.
  - simpl in H. simpl. by apply IH.
  - done.
Qed.

Lemma toResult_loop_Some phrase tuc senses synonyms :
  forallb (item_present EqualFold phrase) tuc = true →
  glosbe.toResult_loop EqualFold phrase tuc senses synonyms =
  Some (senses ++ (omap id tuc ≫= item_senses EqualFold phrase),
        synonyms ++ (omap id tuc ≫= item_synonyms EqualFold phrase)).
Proof.
  revert senses synonyms.
  induction tuc as [|[it|] tuc IH]; intros senses synonyms H.
  - simpl. by rewrite !app_nil_r.
  - simpl in H. apply andb_true_iff in H as [Hit Htuc].
    cbn [glosbe.toResult_loop omap list_omap id mbind list_bind].
    unfold item_senses, item_synonyms.
    unfold is_definition_item in *.
    destruct (glosbe.item.Phrase it) as [p|].
    + destruct (EqualFold (glosbe.Text p) phrase).
      * rewrite append_meanings_Some by done. simpl.
        rewrite IH by done. by rewrite <-app_assoc.
      * case_bool_decide; simpl; rewrite IH by done;
          by rewrite <-?app_assoc.
    + rewrite append_meanings_Some by done. simpl.
      rewrite IH by done. by rewrite <-app_assoc.
  - done.
Qed.

Lemma toResult_loop_None phrase tuc senses synonyms :
  forallb (item_present EqualFold phrase) tuc = false →
  glosbe.toResult_loop EqualFold phrase tuc senses synonyms = None.
Proof.
  revert senses synonyms.
  induction tuc as [|[it|] tuc IH]; intros senses synonyms H.
  - done.
  - simpl in H. apply andb_false_iff in H.
    cbn [glosbe.toResult_loop].
    assert (is_definition_item EqualFold phrase it = true →
            (senses' ← glosbe.append_meanings (glosbe.item.Meanings it) senses;
             glosbe.toResult_loop EqualFold phrase tuc senses' synonyms)
            = None) as Hdefinition.
    { intros Hdef. destruct H as [Hit|Htuc].
      - rewrite Hdef in Hit. simpl in Hit.
        by rewrite append_meanings_None.
      - destruct (glosbe.append_meanings _ _); [by apply IH|done]. }
    unfold is_definition_item in *.
    destruct (glosbe.item.Phrase it) as [p|]; [|by apply Hdefinition].
    destruct (EqualFold (glosbe.Text p) phrase); [by apply Hdefinition|].
    destruct H as [Hit|Htuc]; [done|].
    by destruct (negb _); apply IH.
  - done.
Qed.

End toResult.

(** C9 (as amended).  For a response in which no item is [nil], and no
    meaning of an item that contributes senses, [toResult] returns a result
    with one entry, the head word [Phrase] and the language [Dest]; the
    senses of the entry are, item by item and in order, one sense of one
    definition for each meaning of an item that has no phrase or whose
    phrase matches [Phrase] up to case; its synonyms are the phrases, when
    not empty, of the other items.  For any other response, [toResult]
    follows a [nil] pointer and returns nothing. *)
Theorem toResult_spec (EqualFold : string → string → bool)
    (r : glosbe.apiResult) :
  (no_nil_item EqualFold r = true →
   ∃ entry,
     glosbe.toResult EqualFold r =
       Some {| source.Head := glosbe.Phrase r; source.Lang := glosbe.Dest r;
               source.EntryVals := [entry] |}
     ∧ source.SenseVals <$> source.dictionary entry =
         Some (omap id (glosbe.TUC r) ≫= item_senses EqualFold (glosbe.Phrase r))
     ∧ source.SynonymVals <$> source.thesaurus entry =
         Some (omap id (glosbe.TUC r) ≫= item_synonyms EqualFold (glosbe.Phrase r)))
  ∧ (no_nil_item EqualFold r = false → glosbe.toResult EqualFold r = None).
Proof.
  unfold glosbe.toResult, no_nil_item. split; intros H.
  - rewrite (toResult_loop_Some EqualFold _ _ [] [] H). simpl. eauto.
  - by rewrite (toResult_loop_None EqualFold _ _ [] [] H).
Qed.

Lemma toResult_spec_witness :
  (∃ entry,
     glosbe.toResult ascii_EqualFold sample_response =
       Some {| source.Head := "cat"; source.Lang := "en";
               source.EntryVals := [entry] |}
     ∧ source.SenseVals <$> source.dictionary entry =
         Some [source.sense ["a small domesticated feline"]]
     ∧ source.SynonymVals <$> source.thesaurus entry = Some ["kitty"])
  ∧ glosbe.toResult ascii_EqualFold sample_nil_meaning = None.
Proof.
  split.
  - destruct (toResult_spec ascii_EqualFold sample_response) as [Hpresent _].
    apply Hpresent. reflexivity.
  - destruct (toResult_spec ascii_EqualFold sample_nil_meaning) as [_ Hnil].
    apply Hnil. reflexivity.
Defined.

(** C9 (as stated) fails on a response with a [nil] item, which is what the
    decoder makes of a [null] element of "tuc": the loop dereferences it and
    [toResult] returns nothing. *)
Lemma toResult_nil_item :
  glosbe.toResult ascii_EqualFold sample_null_response = None
  ∧ no_nil_item ascii_EqualFold sample_null_response = false.
Proof. split; reflexivity. Qed.

(** ** Validation of results *)

(** C4.  For a result [r] whose head word is the looked-up word [w],
    validation fails with [EmptyResultError] carrying [w] when [r] has no
    entry, and when every entry of [r] is content-free; it succeeds for a
    result with exactly one entry holding one sense with one non-empty
    definition. *)
Theorem ValidateResult_spec (r : source.ResultValue) (w : string) :
  (source.Head r = w → source.EntryVals r = [] →
   source.ValidateResult r = Some (source.EmptyResultError w))
  ∧ (source.Head r = w →
     Forall (λ e, source.entry_has_content e = false) (source.EntryVals r) →
     source.ValidateResult r = Some (source.EmptyResultError w))
  ∧ (∀ e d s definition,
       source.EntryVals r = [e] → source.dictionary e = Some d →
       source.SenseVals d = [s] → source.DefinitionVals s = [definition] →
       definition ≠ "" →
       source.ValidateResult r = None).
Proof.
  unfold source.ValidateResult. split; [|split].
  - intros <- ->. done.
  - intros <- Hfree. case_decide; [done|].
    rewrite (proj2 (forallb_forall _ _)); [done|].
    intros e He%list_elem_of_In. rewrite Forall_forall in Hfree.
    by rewrite Hfree.
  - intros e d s definition -> Hd Hs Hdef _. simpl.
    unfold source.entry_has_content, source.dictionary_has_content,
      source.sense_has_content.
    rewrite Hd. simpl. rewrite Hs. simpl. rewrite Hdef. simpl.
    by rewrite !orb_true_r.
Qed.

Lemma ValidateResult_spec_witness :
  source.ValidateResult sample_empty_result = Some (source.EmptyResultError "cat")
  ∧ source.ValidateResult sample_hollow_result
    = Some (source.EmptyResultError "cat")
  ∧ source.ValidateResult sample_result = None.
Proof.
  split; [|split].
  - destruct (ValidateResult_spec sample_empty_result "cat") as (Hnone & _).
    apply Hnone; reflexivity.
  - destruct (ValidateResult_spec sample_hollow_result "cat") as (_ & Hfree & _).
    apply Hfree; [reflexivity|]. repeat constructor.
  - destruct (ValidateResult_spec sample_result "cat") as (_ & _ & Hgood).
    eapply Hgood; [reflexivity..|discriminate].
Defined.

(** ** Package state of the Glosbe client *)

(** C7 (as amended).  [Define] changes the package-level state in one
    place: the query of [apiURL] becomes the encoding of the query it had
    with the parameter "phrase" set to the word.  The scheme, host and path
    of [apiURL] and [validMIMETypes] are as before. *)
Theorem Define_frame (EqualFold : string → string → bool) (w : glosbe.World)
    (st : glosbe.State) (word : string) :
  glosbe.validMIMETypes (glosbe.Define EqualFold w st word).1
    = glosbe.validMIMETypes st
  ∧ url.Scheme (glosbe.apiURL (glosbe.Define EqualFold w st word).1)
    = url.Scheme (glosbe.apiURL st)
  ∧ url.Host (glosbe.apiURL (glosbe.Define EqualFold w st word).1)
    = url.Host (glosbe.apiURL st)
  ∧ url.Path (glosbe.apiURL (glosbe.Define EqualFold w st word).1)
    = url.Path (glosbe.apiURL st)
  ∧ url.RawQuery (glosbe.apiURL (glosbe.Define EqualFold w st word).1)
    = url.Values_Encode
        (url.Values_Set (url.Query (glosbe.apiURL st)) "phrase" word).
Proof. repeat split. Qed.

(** C7 (as stated) fails: after [init], [Define] of a word leaves a
    package-level state that differs from the one it found, in the query of
    [apiURL]. *)
Lemma Define_writes_apiURL :
  url.RawQuery (glosbe.apiURL glosbe.init) = "format=json&from=en&dest=en"
  ∧ url.RawQuery
      (glosbe.apiURL (glosbe.Define ascii_EqualFold offline glosbe.init "cat").1)
    = "dest=en&format=json&from=en&phrase=cat"
  ∧ (glosbe.Define ascii_EqualFold offline glosbe.init "cat").1 ≠ glosbe.init.
Proof.
  split; [reflexivity|]. split; [vm_compute; reflexivity|].
  intros H. apply (f_equal (λ st, url.RawQuery (glosbe.apiURL st))) in H.
  vm_compute in H. discriminate.
Qed.

(** X2.  When the request is answered by an acceptable response whose
    decoded document has no element in "tuc", [Define] returns the error
    [EmptyResultError] carrying the word it was given, and no result. *)
Theorem Define_no_translation (EqualFold : string → string → bool)
    (w : glosbe.World) (st : glosbe.State) (word : string)
    (request : glosbe.Request) (response : source.Response) (body : string)
    (result : glosbe.apiResult) :
  glosbe.http_NewRequest w "GET"
    (url.URL_String (glosbe.apiURL (glosbe.Define EqualFold w st word).1))
  = inl request →
  glosbe.httpClient_Do w
    (glosbe.Header_Set request glosbe.httpRequestAcceptHeaderName
       glosbe.jsonMIMEType)
  = inl response →
  source.ValidateHTTPResponse response (glosbe.validMIMETypes st) [] = None →
  source.Body response = inl body →
  glosbe.json_Unmarshal w body = inl result →
  glosbe.TUC result = [] →
  (glosbe.Define EqualFold w st word).2
  = Some (None, Some (source.EmptyResultError word)).
Proof.
  intros Hrequest Hresponse Hvalid Hbody Hresult Htuc.
  unfold glosbe.Define in *. cbn [fst snd glosbe.apiURL glosbe.validMIMETypes] in *.
  rewrite Hrequest, Hresponse, Hvalid, Hbody, Hresult, Htuc. done.
Qed.

Lemma Define_no_translation_witness :
  (glosbe.Define ascii_EqualFold no_translation glosbe.init "xyzzy").2
  = Some (None, Some (source.EmptyResultError "xyzzy")).
Proof.
  by eapply (Define_no_translation ascii_EqualFold no_translation glosbe.init
               "xyzzy").
Defined.

(** ** Building the configuration *)

Section NewFromRuntime.
Variable fold : string → string → bool.

Lemma flags_Parse_configFileLocation flags :
  config.configFileLocation
    (config.flags_Parse flags (config.initializeCommandLineConfig flags)).1
  = default "" (config.flag_config_file flags).
Proof. done. Qed.

(** A file that cannot be read, and a file that does not parse, are
    failures of [initializeFileConfig]. *)
Lemma initializeFileConfig_unreadable rt location err :
  config.ioutil_ReadFile rt (config.expand rt location) = inr err →
  config.initializeFileConfig fold rt location
  = Some (config.zero, Some err, config.registry_Providers rt).
Proof. intros H. unfold config.initializeFileConfig. by rewrite H. Qed.

Lemma initializeFileConfig_malformed rt location contents err :
  config.ioutil_ReadFile rt (config.expand rt location) = inl contents →
  contents ≠ "" →
  config.json_parse rt contents = inr err →
  config.initializeFileConfig fold rt location
  = Some (config.zero, Some (config.JSONError err), config.registry_Providers rt).
Proof.
  intros H Hne Hparse. unfold config.initializeFileConfig. rewrite H.
  destruct contents; [done|]. simpl.
  unfold config.json_Unmarshal. by rewrite Hparse.
Qed.

Lemma loadConfigFile_error rt location fileConfig err providers :
  location ≠ "" →
  config.initializeFileConfig fold rt location
  = Some (fileConfig, Some err, providers) →
  config.loadConfigFile fold rt location
  = Some (fileConfig, Some (config.errors_New "error reading config file"),
          providers).
Proof.
  intros Hne H. unfold config.loadConfigFile.
  rewrite bool_decide_eq_false_2 by done. simpl. by rewrite H.
Qed.

(** Read through a registry that has not changed, the provider map is as
    it was. *)
Lemma read_through_same providers providerConf :
  config.read_through providers providers providerConf = providerConf.
Proof.
  unfold config.read_through.
  destruct (list_find _ providers) as [[i conf]|] eqn:Hfind; [|done].
  apply list_find_Some in Hfind as (Hi & -> & _). by rewrite Hi.
Qed.

Lemma providerConfigs_after_same providers
    (providerConfigs : gmap string (option registry.Configuration)) :
  config.providerConfigs_after providers providers providerConfigs
  = providerConfigs.
Proof.
  unfold config.providerConfigs_after. apply map_eq. intros k.
  rewrite lookup_fmap. destruct (providerConfigs !! k) as [[p|]|]; [|done..].
  simpl. by rewrite read_through_same.
Qed.

Lemma NewFromRuntime_parsed rt flags providerConfigs location defaults :
  config.flag_parse_error flags = None →
  config.NewFromRuntime fold rt flags providerConfigs location defaults =
  let commandLineConfig :=
    (config.flags_Parse flags (config.initializeCommandLineConfig flags)).1 in
  let resolved :=
    config.resolveConfigFile rt commandLineConfig
      (config.set_configFileLocation defaults location) in
  '(fileConfig, err, providers) ← config.loadConfigFile fold rt resolved.1;
  match err with
  | None =>
      Some (config.set_providerConfigs
              (config.mergeConfigurations
                 [commandLineConfig; fileConfig;
                  config.initializeEnvironmentConfig rt; resolved.2]).1
              (config.providerConfigs_after (config.registry_Providers rt)
                 providers providerConfigs),
            (config.mergeConfigurations
               [commandLineConfig; fileConfig;
                config.initializeEnvironmentConfig rt; resolved.2]).2,
            providers)
  | Some _ =>
      Some (config.set_providerConfigs config.zero
              (config.providerConfigs_after (config.registry_Providers rt)
                 providers providerConfigs),
            err, providers)
  end.
Proof.
  intros Hparse. unfold config.NewFromRuntime.
  destruct (config.flags_Parse flags _) as [commandLineConfig err] eqn:E.
  assert (err = None) as ->.
  { apply (f_equal snd) in E. simpl in E. congruence. }
  cbn zeta. cbn [fst snd].
  destruct (config.resolveConfigFile _ _ _) as [loc defaults'].
  cbn [fst snd].
  destruct (config.loadConfigFile fold rt loc)
    as [[[fileConfig [err|]] providers]|]; cbn [mbind option_bind]; [done| |done].
  by destruct (config.mergeConfigurations _).
Qed.

End NewFromRuntime.

(** C5.  With a command line that parses and gives no config-file flag,
    and a default location that does not exist, [NewFromRuntime] returns no
    error, and the exported fields of its configuration are merged from the
    flags, the environment and the defaults alone.  With a config-file flag
    that names a file that cannot be read, [NewFromRuntime] returns an
    error. *)
Theorem NewFromRuntime_config_file_resolution
    (fold : string → string → bool) (rt : config.Runtime)
    (flags : config.FlagSet)
    (providerConfigs : gmap string (option registry.Configuration))
    (location : string) (defaults : config.Configuration) :
  (config.flag_parse_error flags = None →
   config.flag_config_file flags = None →
   config.os_Stat rt (config.expand rt location) = config.StatNotExist →
   ∃ conf,
     config.NewFromRuntime fold rt flags providerConfigs location defaults
     = Some (conf, None, config.registry_Providers rt)
     ∧ config.IndentationSize conf =
         first_nonzero zero_uint 0%Z
           [default 0%Z (config.flag_indent_size flags);
            config.IndentationSize (config.initializeEnvironmentConfig rt);
            config.IndentationSize defaults]
     ∧ config.PreferredSource conf =
         first_nonzero zero_string ""
           [default "" (config.flag_preferred_source flags);
            config.PreferredSource (config.initializeEnvironmentConfig rt);
            config.PreferredSource defaults]
     ∧ config.providerConfigs conf = providerConfigs)
  ∧ (∀ path err,
       config.flag_config_file flags = Some path → path ≠ "" →
       config.ioutil_ReadFile rt (config.expand rt path) = inr err →
       ∃ conf e providers,
         config.NewFromRuntime fold rt flags providerConfigs location defaults
         = Some (conf, Some e, providers)).
Proof.
  split.
  - intros Hparse Hflag Hstat. rewrite NewFromRuntime_parsed by done.
    cbn zeta. unfold config.resolveConfigFile.
    rewrite flags_Parse_configFileLocation, Hflag.
    cbn [default from_option id config.configFileLocation
         config.set_configFileLocation].
    rewrite bool_decide_eq_true_2 by done. cbn [andb].
    assert (config.loadConfigFile fold rt ""
            = Some (config.zero, None, config.registry_Providers rt)) as Hload
      by done.
    destruct (bool_decide (location = "")); cbn [negb];
      [|rewrite Hstat]; cbn [fst snd]; rewrite Hload; cbn [mbind option_bind];
      unfold config.mergeConfigurations; rewrite merge_loop_error;
      (eexists; split; [reflexivity|]);
      cbn [config.IndentationSize config.PreferredSource
           config.providerConfigs config.set_providerConfigs];
      rewrite merge_loop_IndentationSize, merge_loop_PreferredSource,
        providerConfigs_after_same;
      done.
  - intros path err Hflag Hpath Hread.
    destruct (config.flag_parse_error flags) as [perr|] eqn:Hparse.
    + unfold config.NewFromRuntime.
      destruct (config.flags_Parse flags _) as [commandLineConfig e] eqn:E.
      assert (e = Some perr) as ->.
      { apply (f_equal snd) in E. simpl in E. congruence. }
      simpl. eauto.
    + rewrite NewFromRuntime_parsed by done.
      cbn zeta. unfold config.resolveConfigFile.
      rewrite flags_Parse_configFileLocation, Hflag.
      cbn [default from_option id].
      rewrite bool_decide_eq_false_2 by done. cbn [andb fst snd].
      erewrite loadConfigFile_error;
        [|done|by apply initializeFileConfig_unreadable].
      simpl. eauto.
Qed.

Lemma NewFromRuntime_config_file_resolution_witness :
  (∃ conf,
     config.NewFromRuntime ascii_EqualFold no_files no_flags ∅
       "~/.define.conf.json" sample_defaults
     = Some (conf, None, [])
     ∧ config.IndentationSize conf = 4%Z
     ∧ config.PreferredSource conf = "Glosbe"
     ∧ config.providerConfigs conf = ∅)
  ∧ (∃ conf e providers,
       config.NewFromRuntime ascii_EqualFold no_files config_file_flag ∅
         "~/.define.conf.json" sample_defaults
       = Some (conf, Some e, providers)).
Proof.
  split.
  - destruct (NewFromRuntime_config_file_resolution ascii_EqualFold no_files
                no_flags ∅ "~/.define.conf.json" sample_defaults)
      as [Hdefault _].
    apply Hdefault; reflexivity.
  - destruct (NewFromRuntime_config_file_resolution ascii_EqualFold no_files
                config_file_flag ∅ "~/.define.conf.json" sample_defaults)
      as [_ Hexplicit].
    eapply Hexplicit; [reflexivity|discriminate|reflexivity].
Defined.

(** C6 (as amended).  When the command line parses, a file is selected for
    loading and reading or decoding it fails with an error, the error that
    [NewFromRuntime] returns is the one made of the text "error reading
    config file", which is then its message, whatever the error of the
    failure was. *)
Theorem NewFromRuntime_config_file_error
    (fold : string → string → bool) (rt : config.Runtime)
    (flags : config.FlagSet)
    (providerConfigs : gmap string (option registry.Configuration))
    (location : string) (defaults fileConfig : config.Configuration)
    (err : config.error) (providers : list registry.Configuration) :
  config.flag_parse_error flags = None →
  selected_config_file rt flags location defaults ≠ "" →
  config.initializeFileConfig fold rt
    (selected_config_file rt flags location defaults)
  = Some (fileConfig, Some err, providers) →
  ∃ conf e,
    config.NewFromRuntime fold rt flags providerConfigs location defaults
    = Some (conf, Some e, providers)
    ∧ e = config.errors_New "error reading config file"
    ∧ config.Error e = "error reading config file".
Proof.
  intros Hparse Hselected Hfail. rewrite NewFromRuntime_parsed by done.
  cbn zeta. fold (selected_config_file rt flags location defaults).
  rewrite (loadConfigFile_error fold _ _ _ _ _ Hselected Hfail).
  simpl. eauto.
Qed.

Lemma NewFromRuntime_config_file_error_witness :
  (∃ conf e,
     config.NewFromRuntime ascii_EqualFold no_files config_file_flag ∅
       "~/.define.conf.json" sample_defaults
     = Some (conf, Some e, [])
     ∧ e = config.errors_New "error reading config file"
     ∧ config.Error e = "error reading config file")
  ∧ (∃ conf e,
       config.NewFromRuntime ascii_EqualFold malformed_files no_flags ∅
         "~/.define.conf.json" sample_defaults
       = Some (conf, Some e, [])
       ∧ e = config.errors_New "error reading config file"
       ∧ config.Error e = "error reading config file").
Proof.
  split.
  - eapply (NewFromRuntime_config_file_error ascii_EqualFold no_files
              config_file_flag);
      [reflexivity|discriminate|].
    apply initializeFileConfig_unreadable. reflexivity.
  - eapply (NewFromRuntime_config_file_error ascii_EqualFold malformed_files
              no_flags);
      [reflexivity|discriminate|].
    eapply initializeFileConfig_malformed; [reflexivity|discriminate|reflexivity].
Defined.

(** C6 (as stated) fails on a selected file in which the section of a
    registered provider cannot be decoded.  When the section holds a value
    of the wrong type, the error of decoding it is dropped (line 341
    ignores what [json.Unmarshal] returns) and [NewFromRuntime] returns no
    error at all.  When the section is [null], decoding the file fails not
    with an error but with a panic, and [NewFromRuntime] returns neither
    the message nor anything else. *)
Lemma NewFromRuntime_provider_section_failure :
  selected_config_file mistyped_section_files no_flags "~/.define.conf.json"
    sample_defaults
  = "~/.define.conf.json"
  ∧ config.json_parse mistyped_section_files "{...}"
    = inl sample_mistyped_section
  ∧ (json.Unmarshal_struct ascii_EqualFold
       (json.JObject [("AppID", json.JInt 5)])
       [("AppID", json.FString ""); ("AppKey", json.FString "")]).2
    = Some (json.UnmarshalTypeError "AppID")
  ∧ (∃ conf providers,
       config.NewFromRuntime ascii_EqualFold mistyped_section_files no_flags ∅
         "~/.define.conf.json" sample_defaults
       = Some (conf, None, providers))
  ∧ selected_config_file null_section_files no_flags "~/.define.conf.json"
      sample_defaults
    = "~/.define.conf.json"
  ∧ config.json_parse null_section_files "{...}" = inl sample_null_section
  ∧ config.initializeFileConfig ascii_EqualFold null_section_files
      "~/.define.conf.json"
    = None
  ∧ config.NewFromRuntime ascii_EqualFold null_section_files no_flags ∅
      "~/.define.conf.json" sample_defaults
    = None.
Proof. repeat split. by eexists _, _. Qed.

(** X3.  When the command line does not parse, [NewFromRuntime] returns the
    error of the parse, with the zero configuration to which the provider
    configurations are attached; no file is read. *)
Theorem NewFromRuntime_parse_error
    (fold : string → string → bool) (rt : config.Runtime)
    (flags : config.FlagSet)
    (providerConfigs : gmap string (option registry.Configuration))
    (location : string) (defaults : config.Configuration) (err : config.error) :
  config.flag_parse_error flags = Some err →
  config.NewFromRuntime fold rt flags providerConfigs location defaults
  = Some (config.set_providerConfigs config.zero providerConfigs, Some err,
          config.registry_Providers rt).
Proof.
  intros Hparse. unfold config.NewFromRuntime.
  destruct (config.flags_Parse flags _) as [commandLineConfig e] eqn:E.
  assert (e = Some err) as ->.
  { apply (f_equal snd) in E. simpl in E. congruence. }
  cbn [mbind option_bind]. by rewrite providerConfigs_after_same.
Qed.

Lemma NewFromRuntime_parse_error_witness :
  config.NewFromRuntime ascii_EqualFold no_files bad_flags ∅
    "~/.define.conf.json" sample_defaults
  = Some (config.zero, Some (config.FlagError "unknown flag: --colour"), []).
Proof.
  apply (NewFromRuntime_parse_error ascii_EqualFold no_files bad_flags ∅
           "~/.define.conf.json" sample_defaults).
  reflexivity.
Defined.



(** ** Serialization *)

Section roundtrip.
Variable fold : string → string → bool.









Lemma has_fields_length p :
  ¬ (List.length (config.structs_Fields p) < 1)%nat → has_fields p.
Proof.
  unfold has_fields, config.structs_Fields.
  destruct (registry.Fields p); simpl; [lia|done].
Qed.




(** The loop over the registered providers: those whose key has a raw
    message in the document are decoded from it and attached under their
    key, nothing else changes. *)
Lemma attach_providers_spec (rawmap : gmap string (option json.json))
    (providers : list registry.Configuration) (c0 : config.Configuration) :
  NoDup (registry.JSONKey <$> providers) →
  (∀ r, r ∈ providers → rawmap !! registry.JSONKey r ≠ Some None) →
  ∃ c1 providers',
    config.attach_providers fold rawmap providers c0 = Some (c1, providers')
    ∧ config.IndentationSize c1 = config.IndentationSize c0
    ∧ config.PreferredSource c1 = config.PreferredSource c0
    ∧ (∀ r raw, r ∈ providers →
         rawmap !! registry.JSONKey r = Some (Some raw) →
         config.providerConfigs c1 !! registry.JSONKey r =
         Some (Some {| registry.JSONKey := registry.JSONKey r;
                       registry.Fields :=
                         (json.Unmarshal_struct fold raw (registry.Fields r)).1 |}))
    ∧ (∀ k, (∀ r, r ∈ providers → registry.JSONKey r = k → rawmap !! k = None) →
         config.providerConfigs c1 !! k = config.providerConfigs c0 !! k).
Proof.
  revert c0. induction providers as [|r providers IH]; intros c0 Hnodup Hnil.
  { exists c0, []. repeat split; try done. by intros r raw ?%elem_of_nil. }
  rewrite fmap_cons in Hnodup. apply NoDup_cons in Hnodup as [Hr Hnodup].
  cbn [config.attach_providers].
  destruct (rawmap !! registry.JSONKey r) as [[raw|]|] eqn:Hraw.
  - set (r' := {| registry.JSONKey := registry.JSONKey r;
                  registry.Fields :=
                    (json.Unmarshal_struct fold raw (registry.Fields r)).1 |}).
    destruct (IH (config.set_providerConfigs c0
                    (<[registry.JSONKey r' := Some r']> (config.providerConfigs c0))))
      as (c1 & providers' & -> & HIS & HPS & Hin & Hout); [done| |].
    { intros r0 Hr0. apply Hnil. by right. }
    exists c1, (r' :: providers'). cbn [mbind option_bind].
    split; [done|]. split; [done|]. split; [done|]. split.
    + intros r0 raw0 [->|Hr0]%elem_of_cons Hraw0.
      * rewrite Hout.
        { cbn [config.providerConfigs config.set_providerConfigs].
          rewrite lookup_insert_eq. rewrite Hraw in Hraw0.
          by injection Hraw0 as <-. }
        intros r1 Hr1 Hkey. destruct Hr. rewrite <-Hkey.
        by apply list_elem_of_fmap_2.
      * by apply Hin.
    + intros k Hk. rewrite Hout.
      * cbn [config.providerConfigs config.set_providerConfigs].
        apply lookup_insert_ne. intros Hkey. simpl in Hkey.
        specialize (Hk r (list_elem_of_here _ _) Hkey). subst k. congruence.
      * intros r1 Hr1. apply Hk. by right.
  - destruct (Hnil r); [left|done].
  - destruct (IH c0) as (c1 & providers' & -> & HIS & HPS & Hin & Hout); [done| |].
    { intros r0 Hr0. apply Hnil. by right. }
    exists c1, (r :: providers'). cbn [mbind option_bind].
    split; [done|]. split; [done|]. split; [done|]. split.
    + intros r0 raw0 [->|Hr0]%elem_of_cons Hraw0; [congruence|by apply Hin].
    + intros k Hk. apply Hout. intros r1 Hr1. apply Hk. by right.
Qed.

End roundtrip.
















(** * Further properties of the code *)

(** ** Strings *)

Lemma append_cons c (s t : string) : String c s +:+ t = String c (s +:+ t).
Proof. done. Qed.

Lemma append_length (s t : string) :
  String.length (s +:+ t) = (String.length s + String.length t)%nat.
Proof.
  induction s as [|c s IH]; [done|]. rewrite append_cons. simpl. by rewrite IH.
Qed.

Lemma append_assoc (s t u : string) : (s +:+ t) +:+ u = s +:+ t +:+ u.
Proof.
  induction s as [|c s IH]; [done|]. rewrite !append_cons. by rewrite IH.
Qed.

(** ** The panic writer *)

Section PanicWriter.
Context {World error : Type}.
Implicit Types (w : defineio.PanicWriter World error) (p : string).

Lemma repeat_string_length b n :
  String.length (defineio.repeat_string b n) = (n * String.length b)%nat.
Proof.
  induction n as [|n IH]; [done|]. simpl.
  rewrite append_length. lia.
Qed.

Lemma repeat_string_add b n m :
  defineio.repeat_string b (n + m)
  = defineio.repeat_string b n +:+ defineio.repeat_string b m.
Proof.
  induction n as [|n IH]; [done|]. simpl. rewrite IH.
  by rewrite append_assoc.
Qed.

(** The first statement of [Write], for a number of spaces that an [int]
    holds. *)
Lemma Write_indentation w p :
  (0 <= defineio.spaces w <= defineio.maxInt)%Z →
  (if (0 <? defineio.spaces w)%Z then
     match defineio.bytes_Repeat " " (defineio.int_of_uint (defineio.spaces w)) with
     | Some indentation => defineio.ret (indentation +:+ p)
     | None => defineio.panic
     end
   else defineio.ret p)
  = defineio.ret (World := World) (indentation w +:+ p).
Proof.
  intros Hrange. unfold indentation.
  destruct (Z.ltb_spec 0 (defineio.spaces w)) as [Hpos|Hzero].
  - unfold defineio.int_of_uint, defineio.bytes_Repeat.
    rewrite (proj2 (Z.leb_le _ _)) by lia.
    rewrite (proj2 (Z.eqb_neq _ _)) by lia.
    rewrite (proj2 (Z.ltb_ge _ _)) by lia.
    change (Z.of_nat (String.length " ")) with 1%Z.
    by rewrite (proj2 (Z.ltb_ge _ _)) by lia.
  - by replace (defineio.spaces w) with 0%Z by lia.
Qed.

Lemma Write_inner w p (world : World) :
  (0 <= defineio.spaces w <= defineio.maxInt)%Z →
  defineio.Write w p world =
  match defineio.io_Write (defineio.inner w) (indentation w +:+ p) world with
  | (world', Some (n, None)) => (world', Some n)
  | (world', _) => (world', None)
  end.
Proof.
  intros Hrange. unfold defineio.Write. rewrite Write_indentation by done.
  unfold defineio.bind, defineio.ret.
  by destruct (defineio.io_Write _ _ _) as [world' [[n [err|]]|]].
Qed.

Lemma Write_overflow w p (world : World) :
  (defineio.maxInt < defineio.spaces w <= maxUint)%Z →
  defineio.Write w p world = (world, None).
Proof.
  intros Hrange.
  unfold defineio.Write, defineio.int_of_uint, defineio.bytes_Repeat.
  unfold maxUint, IntSize, defineio.maxInt in *.
  rewrite (proj2 (Z.ltb_lt _ _)) by lia.
  rewrite (proj2 (Z.leb_gt _ _)) by lia.
  rewrite (proj2 (Z.eqb_neq _ _)) by lia.
  by rewrite (proj2 (Z.ltb_lt _ _)) by lia.
Qed.

End PanicWriter.

(** X5.  [Write] through a writer with [n] spaces of indentation, [n] an
    [int], hands the inner writer, in one call, [n] spaces followed by the
    data.  It returns the count that the inner writer reports, which counts
    the spaces too, and panics when the inner writer reports an error or
    panics, leaving what the inner writer left. *)
Theorem Write_indents {World error : Type}
    (w : defineio.PanicWriter World error) (p : string) (world : World) :
  (0 <= defineio.spaces w <= defineio.maxInt)%Z →
  defineio.Write w p world =
  match defineio.io_Write (defineio.inner w) (indentation w +:+ p) world with
  | (world', Some (n, None)) => (world', Some n)
  | (world', _) => (world', None)
  end.
Proof.
  intros Hrange. unfold defineio.Write. rewrite Write_indentation by done.
  unfold defineio.bind, defineio.ret.
  by destruct (defineio.io_Write _ _ _) as [world' [[n [err|]]|]].
Qed.

Lemma Write_indents_witness :
  defineio.Write (defineio.indented (defineio.NewPanicWriter buffer) 2) "cat" "a"
  = ("a  cat", Some 5%Z)
  ∧ defineio.Write (defineio.NewPanicWriter closed) "cat" "a" = ("a", None).
Proof.
  split.
  - rewrite (Write_indents (defineio.indented (defineio.NewPanicWriter buffer) 2)
               "cat" "a"); [reflexivity|].
    split; vm_compute; discriminate.
  - rewrite (Write_indents (defineio.NewPanicWriter closed) "cat" "a");
      [reflexivity|].
    split; vm_compute; discriminate.
Defined.

(** X6.  With an indentation that no [int] holds (2^63 spaces or more),
    [Write] panics before it calls the inner writer: the conversion of the
    number of spaces gives a negative count. *)
Theorem Write_negative_count {World error : Type}
    (w : defineio.PanicWriter World error) (p : string) (world : World) :
  (defineio.maxInt < defineio.spaces w <= maxUint)%Z →
  defineio.Write w p world = (world, None).
Proof.
  intros [Hint Huint]. unfold maxUint, IntSize, defineio.maxInt in *.
  assert (defineio.bytes_Repeat " " (defineio.int_of_uint (defineio.spaces w))
          = None) as Hcount.
  { unfold defineio.int_of_uint, defineio.bytes_Repeat, defineio.maxInt.
    rewrite (proj2 (Z.leb_gt _ _)) by lia.
    rewrite (proj2 (Z.eqb_neq _ _)) by lia.
    by rewrite (proj2 (Z.ltb_lt _ _)) by lia. }
  unfold defineio.Write. rewrite Hcount.
  by rewrite (proj2 (Z.ltb_lt _ _)) by lia.
Qed.

Lemma Write_negative_count_witness :
  defineio.Write
    (defineio.indented (defineio.NewPanicWriter buffer) (2 ^ 63)) "cat" "a"
  = ("a", None).
Proof.
  apply (Write_negative_count
           (defineio.indented (defineio.NewPanicWriter buffer) (2 ^ 63))).
  split; vm_compute; [reflexivity|discriminate].
Defined.

(** X7.  The writer as an [io.Writer] never reports an error: when its
    [Write] returns, the error is [nil], and the inner writer has taken the
    indented data and reported the count returned, and no error. *)
Theorem PanicWriterWriter_Write_no_error {World error : Type}
    (w : defineio.PanicWriter World error) (p : string) (world world' : World)
    (n : Z) (err : option error) :
  (0 <= defineio.spaces w <= maxUint)%Z →
  defineio.PanicWriterWriter_Write w p world = (world', Some (n, err)) →
  err = None
  ∧ defineio.io_Write (defineio.inner w) (indentation w +:+ p) world
    = (world', Some (n, None)).
Proof.
  intros Hrange. unfold defineio.PanicWriterWriter_Write, defineio.bind.
  destruct (Z.le_gt_cases (defineio.spaces w) defineio.maxInt) as [Hint|Hint].
  - rewrite Write_inner by lia. unfold defineio.ret.
    destruct (defineio.io_Write _ _ _) as [world1 [[n1 [err1|]]|]]; [done| |done].
    by intros [= -> -> <-].
  - rewrite Write_overflow by lia. done.
Qed.

Lemma PanicWriterWriter_Write_no_error_witness :
  (None : option unit) = None
  ∧ defineio.io_Write buffer "  cat" "a" = ("a  cat", Some (5%Z, None)).
Proof.
  apply (PanicWriterWriter_Write_no_error
           (defineio.indented (defineio.NewPanicWriter buffer) 2) "cat" "a"
           "a  cat" 5 None).
  - split; vm_compute; discriminate.
  - reflexivity.
Defined.

(** X8.  [WriteStringLine] makes two writes, the string and the line
    break, and each is indented: on a writer that takes every write whole,
    what is written is the indentation, the string, the indentation again
    and the line break, and the count returned is the length of the string
    plus one plus twice the indentation. *)
Theorem WriteStringLine_appends {World error : Type} (written : World → string)
    (w : defineio.PanicWriter World error) (p : string) (world : World) :
  appends written (defineio.inner w) →
  (0 <= defineio.spaces w)%Z →
  (2 * defineio.spaces w + Z.of_nat (String.length p) + 1 <= defineio.maxInt)%Z →
  ∃ world',
    defineio.WriteStringLine w p world
    = (world',
       Some (2 * defineio.spaces w + Z.of_nat (String.length p) + 1)%Z)
    ∧ written world'
      = written world +:+ indentation w +:+ p
        +:+ indentation w +:+ defineio.newline.
Proof.
  intros Happends Hpos Hfits.
  unfold defineio.WriteStringLine, defineio.WriteNewLine, defineio.WriteString,
    defineio.bind.
  rewrite Write_inner by lia.
  destruct (Happends (indentation w +:+ p) world) as (world1 & -> & Hworld1).
  rewrite Write_inner by lia.
  destruct (Happends (indentation w +:+ defineio.newline) world1)
    as (world2 & -> & Hworld2).
  exists world2. split.
  - unfold defineio.ret. f_equal. f_equal.
    rewrite !append_length. unfold indentation.
    rewrite repeat_string_length. change (String.length " ") with 1%nat.
    change (String.length defineio.newline) with 1%nat.
    unfold defineio.int_add, defineio.int_of_uint.
    rewrite Z.mod_small by (unfold defineio.maxInt in *; lia).
    rewrite (proj2 (Z.leb_le _ _)) by lia. lia.
  - rewrite Hworld2, Hworld1. by rewrite !append_assoc.
Qed.

Lemma WriteStringLine_appends_witness :
  ∃ world',
    defineio.WriteStringLine
      (defineio.indented (defineio.NewPanicWriter buffer) 2) "cat" "a"
    = (world', Some 8%Z)
    ∧ world' = "a  cat  " +:+ defineio.newline.
Proof.
  apply (WriteStringLine_appends id
           (defineio.indented (defineio.NewPanicWriter buffer) 2) "cat" "a").
  - intros data world. eexists. split; reflexivity.
  - vm_compute. discriminate.
  - vm_compute. discriminate.
Defined.

(** X9.  Indentation adds up, as [uint]s do: writes indented by [a], and
    inside them by [b], are the writes indented by [a + b] modulo 2^64. *)
Theorem IndentWrites_nested {World error A : Type}
    (w : defineio.PanicWriter World error) (a b : Z)
    (writesFunc : defineio.PanicWriter World error → defineio.M World A) :
  defineio.IndentWrites w a (λ w', defineio.IndentWrites w' b writesFunc)
  = defineio.IndentWrites w ((a + b) mod 2 ^ IntSize) writesFunc.
Proof.
  unfold defineio.IndentWrites, defineio.indented. simpl. f_equal. f_equal.
  rewrite Z.add_mod_idemp_l, Z.add_mod_idemp_r by done. f_equal. lia.
Qed.

(** X10.  A panic writer over the [IndentedWriter] of another writes what
    that one writes with both indentations: indenting by [b] over
    [IndentedWriter(a)] is indenting by [a + b], as long as the sum is an
    [int]. *)
Theorem IndentedWriter_indented {World error : Type}
    (w : defineio.PanicWriter World error) (a b : Z) (p : string)
    (world : World) :
  (0 <= defineio.spaces w)%Z → (0 <= a)%Z → (0 <= b)%Z →
  (defineio.spaces w + a + b <= defineio.maxInt)%Z →
  defineio.Write
    (defineio.indented (defineio.NewPanicWriter (defineio.IndentedWriter w a)) b)
    p world
  = defineio.Write (defineio.indented w (a + b)) p world.
Proof.
  intros Hw Ha Hb Hfits.
  assert (2 ^ IntSize = 2 * defineio.maxInt + 2)%Z as Hsize by done.
  rewrite !Write_inner; cbn [defineio.spaces defineio.indented
    defineio.inner defineio.NewPanicWriter]; rewrite ?Z.mod_small; try lia.
  cbn [defineio.IndentedWriter defineio.io_Write].
  unfold defineio.PanicWriterWriter_Write, defineio.bind.
  rewrite Write_inner;
    cbn [defineio.spaces defineio.indented defineio.inner];
    rewrite ?Z.mod_small; try lia.
  unfold indentation.
  cbn [defineio.spaces defineio.indented defineio.NewPanicWriter].
  rewrite !Z.mod_small by lia.
  replace (Z.to_nat (defineio.spaces w + (a + b)))
    with (Z.to_nat (defineio.spaces w + a) + Z.to_nat (0 + b))%nat by lia.
  rewrite repeat_string_add, append_assoc.
  by destruct (defineio.io_Write _ _ _) as [world' [[n [err|]]|]].
Qed.

Lemma IndentedWriter_indented_witness :
  defineio.Write
    (defineio.indented
       (defineio.NewPanicWriter
          (defineio.IndentedWriter (defineio.NewPanicWriter buffer) 2)) 3)
    "cat" "a"
  = ("a     cat", Some 8%Z).
Proof.
  rewrite (IndentedWriter_indented (defineio.NewPanicWriter buffer) 2 3 "cat" "a");
    [reflexivity|vm_compute; discriminate..].
Defined.

(** ** Merging in stages *)

Section first_nonzero.
Context {A : Type} (is_zero : A → bool) (zero : A).
Hypothesis is_zero_spec : ∀ x, is_zero x = true ↔ x = zero.

Lemma first_nonzero_app (xs ys : list A) :
  first_nonzero is_zero zero (xs ++ ys)
  = first_nonzero is_zero zero
      [first_nonzero is_zero zero xs; first_nonzero is_zero zero ys].
Proof using is_zero_spec.
  induction xs as [|x xs IH].
  - simpl. rewrite (proj2 (is_zero_spec zero)) by done.
    destruct (is_zero (first_nonzero is_zero zero ys)) eqn:Hys; [|done].
    by apply is_zero_spec.
  - simpl. destruct (is_zero x) eqn:Hx; [done|]. by rewrite Hx.
Qed.

Lemma first_nonzero_nonzero (xs : list A) x :
  x ∈ xs → is_zero x = false →
  is_zero (first_nonzero is_zero zero xs) = false.
Proof using Type.
  induction 1 as [x xs|x y xs Hin IH]; intros Hx; simpl.
  - by rewrite Hx.
  - destruct (is_zero y) eqn:Hy; [by apply IH|done].
Qed.

End first_nonzero.

Lemma zero_uint_spec n : zero_uint n = true ↔ n = 0%Z.
Proof. unfold zero_uint. by rewrite Z.eqb_eq. Qed.

Lemma zero_string_spec s : zero_string s = true ↔ s = "".
Proof. unfold zero_string. by rewrite bool_decide_eq_true. Qed.

(** X11.  Merging can be done in stages: the merge of two lists of
    configurations, one after the other, is the merge of the merge of the
    first and the merge of the second. *)
Theorem mergeConfigurations_app (xs ys : list config.Configuration) :
  config.mergeConfigurations (xs ++ ys)
  = config.mergeConfigurations
      [(config.mergeConfigurations xs).1; (config.mergeConfigurations ys).1].
Proof.
  apply injective_projections.
  - apply Configuration_eq.
    + rewrite !mergeConfigurations_IndentationSize, fmap_app.
      rewrite (first_nonzero_app _ _ zero_uint_spec).
      cbn [fmap list_fmap]. by rewrite !mergeConfigurations_IndentationSize.
    + rewrite !mergeConfigurations_PreferredSource, fmap_app.
      rewrite (first_nonzero_app _ _ zero_string_spec).
      cbn [fmap list_fmap]. by rewrite !mergeConfigurations_PreferredSource.
    + unfold config.mergeConfigurations.
      by rewrite !(proj1 (merge_loop_private config.zero _)).
    + unfold config.mergeConfigurations.
      by rewrite !(proj2 (merge_loop_private config.zero _)).
  - unfold config.mergeConfigurations. by rewrite !merge_loop_error.
Qed.

(** ** What NewFromRuntime returns *)

Section NewFromRuntime_outcomes.
Variable fold : string → string → bool.

Lemma resolveConfigFile_exported rt commandLineConfig defaults :
  config.IndentationSize
    (config.resolveConfigFile rt commandLineConfig defaults).2
  = config.IndentationSize defaults
  ∧ config.PreferredSource
      (config.resolveConfigFile rt commandLineConfig defaults).2
    = config.PreferredSource defaults.
Proof.
  unfold config.resolveConfigFile.
  by repeat (destruct (_ && _) || destruct (config.os_Stat _ _)).
Qed.

(** The two ways [NewFromRuntime] returns: with an error and the zero
    configuration, or without one and the merged configuration. *)
Lemma NewFromRuntime_outcome rt flags providerConfigs location defaults
    conf err providers :
  config.NewFromRuntime fold rt flags providerConfigs location defaults
  = Some (conf, err, providers) →
  (err ≠ None
   ∧ conf
     = config.set_providerConfigs config.zero
         (config.providerConfigs_after (config.registry_Providers rt) providers
            providerConfigs))
  ∨ (err = None ∧ config.flag_parse_error flags = None
     ∧ ∃ fileConfig,
         config.loadConfigFile fold rt
           (selected_config_file rt flags location defaults)
         = Some (fileConfig, None, providers)
         ∧ conf
           = config.set_providerConfigs
               (config.mergeConfigurations
                  [(config.flags_Parse flags
                      (config.initializeCommandLineConfig flags)).1;
                   fileConfig; config.initializeEnvironmentConfig rt;
                   (config.resolveConfigFile rt
                      (config.flags_Parse flags
                         (config.initializeCommandLineConfig flags)).1
                      (config.set_configFileLocation defaults location)).2]).1
               (config.providerConfigs_after (config.registry_Providers rt)
                  providers providerConfigs)).
Proof.
  destruct (config.flag_parse_error flags) as [perr|] eqn:Hparse.
  - unfold config.NewFromRuntime.
    destruct (config.flags_Parse flags _) as [commandLineConfig e] eqn:E.
    assert (e = Some perr) as ->.
    { apply (f_equal snd) in E. simpl in E. congruence. }
    simpl. intros [= <- <- <-]. by left.
  - rewrite NewFromRuntime_parsed by done. cbn zeta.
    fold (selected_config_file rt flags location defaults).
    destruct (config.loadConfigFile _ _ _)
      as [[[fileConfig [lerr|]] providers0]|] eqn:Hload;
      cbn [mbind option_bind]; [| |done].
    + intros [= <- <- <-]. by left.
    + unfold config.mergeConfigurations at 2. rewrite merge_loop_error.
      intros [= <- <- <-]. right. split; [done|]. split; [done|].
      by exists fileConfig.
Qed.

Lemma attach_providers_empty providers c :
  config.attach_providers fold ∅ providers c = Some (c, providers).
Proof.
  induction providers as [|r providers IH]; [done|].
  cbn [config.attach_providers]. rewrite lookup_empty, IH. done.
Qed.

Lemma initializeFileConfig_without_content rt location contents :
  config.ioutil_ReadFile rt (config.expand rt location) = inl contents →
  without_content rt contents →
  config.initializeFileConfig fold rt location
  = Some (config.zero, None, config.registry_Providers rt).
Proof.
  intros Hread Hcontents. unfold config.initializeFileConfig. rewrite Hread.
  case_decide as Hlen; [|done].
  destruct Hcontents as [->|Hparse]; [simpl in Hlen; lia|].
  unfold config.json_Unmarshal, config.UnmarshalJSON.
  destruct Hparse as [-> | ->]; simpl; by rewrite attach_providers_empty.
Qed.

End NewFromRuntime_outcomes.



(** X13.  A zero value is never a setting: when the defaults hold an
    indentation size that is not zero, no command line, file or
    environment makes [NewFromRuntime] return, without error, an
    indentation size of zero; and likewise for an empty preferred
    source. *)
Theorem NewFromRuntime_zero_is_unset (fold : string → string → bool)
    (rt : config.Runtime) (flags : config.FlagSet)
    (providerConfigs : gmap string (option registry.Configuration))
    (location : string) (defaults conf : config.Configuration)
    (providers : list registry.Configuration) :
  config.NewFromRuntime fold rt flags providerConfigs location defaults
  = Some (conf, None, providers) →
  (config.IndentationSize defaults ≠ 0%Z → config.IndentationSize conf ≠ 0%Z)
  ∧ (config.PreferredSource defaults ≠ "" → config.PreferredSource conf ≠ "").
Proof.
  intros [[? _]|(_ & _ & fileConfig & _ & ->)]%NewFromRuntime_outcome;
    [done|].
  cbn [config.IndentationSize config.PreferredSource config.set_providerConfigs].
  rewrite mergeConfigurations_IndentationSize,
    mergeConfigurations_PreferredSource.
  pose proof (resolveConfigFile_exported rt
                (config.flags_Parse flags
                   (config.initializeCommandLineConfig flags)).1
                (config.set_configFileLocation defaults location)) as [HIS HPS].
  cbn [config.IndentationSize config.PreferredSource
       config.set_configFileLocation] in HIS, HPS.
  split; intros Hdefault Hzero.
  - apply zero_uint_spec in Hzero.
    rewrite (first_nonzero_nonzero zero_uint 0%Z _
               (config.IndentationSize defaults)) in Hzero; [done| |].
    + rewrite <-HIS. cbn [fmap list_fmap]. set_solver.
    + apply not_true_is_false. by rewrite zero_uint_spec.
  - apply zero_string_spec in Hzero.
    rewrite (first_nonzero_nonzero zero_string "" _
               (config.PreferredSource defaults)) in Hzero; [done| |].
    + rewrite <-HPS. cbn [fmap list_fmap]. set_solver.
    + apply not_true_is_false. by rewrite zero_string_spec.
Qed.

Lemma NewFromRuntime_zero_is_unset_witness :
  ∃ conf,
    config.NewFromRuntime ascii_EqualFold empty_files zero_indent_flag ∅
      "~/.define.conf.json" sample_defaults
    = Some (conf, None, [])
    ∧ config.IndentationSize conf ≠ 0%Z
    ∧ config.PreferredSource conf ≠ "".
Proof.
  eexists. split; [reflexivity|].
  destruct (NewFromRuntime_zero_is_unset ascii_EqualFold empty_files
              zero_indent_flag ∅ "~/.define.conf.json" sample_defaults
              _ [] eq_refl) as [Hindent Hsource].
  split; [apply Hindent|apply Hsource]; discriminate.
Defined.

(** X14.  A config file without content is no error: when the file
    selected for loading is empty, or holds the document [null] or an
    object without members, [NewFromRuntime] returns no error, and the
    exported fields come from the flags, the environment and the defaults
    as if there were no file. *)
Theorem NewFromRuntime_file_without_content
    (fold : string → string → bool) (rt : config.Runtime)
    (flags : config.FlagSet)
    (providerConfigs : gmap string (option registry.Configuration))
    (location contents : string) (defaults : config.Configuration) :
  config.flag_parse_error flags = None →
  selected_config_file rt flags location defaults ≠ "" →
  config.ioutil_ReadFile rt
    (config.expand rt (selected_config_file rt flags location defaults))
  = inl contents →
  without_content rt contents →
  ∃ conf,
    config.NewFromRuntime fold rt flags providerConfigs location defaults
    = Some (conf, None, config.registry_Providers rt)
    ∧ config.IndentationSize conf =
        first_nonzero zero_uint 0%Z
          [default 0%Z (config.flag_indent_size flags);
           config.IndentationSize (config.initializeEnvironmentConfig rt);
           config.IndentationSize defaults]
    ∧ config.PreferredSource conf =
        first_nonzero zero_string ""
          [default "" (config.flag_preferred_source flags);
           config.PreferredSource (config.initializeEnvironmentConfig rt);
           config.PreferredSource defaults].
Proof.
  intros Hparse Hselected Hread Hcontents.
  rewrite NewFromRuntime_parsed by done. cbn zeta.
  fold (selected_config_file rt flags location defaults).
  unfold config.loadConfigFile. rewrite bool_decide_eq_false_2 by done.
  cbn [negb].
  rewrite (initializeFileConfig_without_content fold rt _ contents) by done.
  cbn [mbind option_bind].
  unfold config.mergeConfigurations at 2. rewrite merge_loop_error.
  eexists. split; [reflexivity|].
  cbn [config.IndentationSize config.PreferredSource
       config.set_providerConfigs].
  rewrite mergeConfigurations_IndentationSize,
    mergeConfigurations_PreferredSource.
  pose proof (resolveConfigFile_exported rt
                (config.flags_Parse flags
                   (config.initializeCommandLineConfig flags)).1
                (config.set_configFileLocation defaults location)) as [HIS HPS].
  cbn [config.IndentationSize config.PreferredSource
       config.set_configFileLocation] in HIS, HPS.
  cbn [fmap list_fmap]. rewrite HIS, HPS. done.
Qed.

Lemma NewFromRuntime_file_without_content_witness :
  ∃ conf,
    config.NewFromRuntime ascii_EqualFold empty_files indent_flag ∅
      "~/.define.conf.json" sample_defaults
    = Some (conf, None, [])
    ∧ config.IndentationSize conf = 6%Z
    ∧ config.PreferredSource conf = "Glosbe".
Proof.
  apply (NewFromRuntime_file_without_content ascii_EqualFold empty_files
           indent_flag ∅ "~/.define.conf.json" "" sample_defaults).
  - reflexivity.
  - discriminate.
  - reflexivity.
  - by left.
Defined.

(** ** Provider sections of a document *)

Section UnmarshalJSON.
Variable fold : string → string → bool.

Lemma attach_providers_nil (rawmap : gmap string (option json.json))
    (providers : list registry.Configuration) (c : config.Configuration) r :
  r ∈ providers → rawmap !! registry.JSONKey r = Some None →
  config.attach_providers fold rawmap providers c = None.
Proof.
  intros Hr Hnil. revert c.
  induction Hr as [r providers|r r' providers Hr IH]; intros c.
  - cbn [config.attach_providers]. by rewrite Hnil.
  - cbn [config.attach_providers].
    destruct (rawmap !! registry.JSONKey r') as [[raw|]|]; [|done|];
      by rewrite IH.
Qed.

Lemma Unmarshal_rawmap_error data (x : list (string * json.FieldValue)) :
  (json.Unmarshal_struct fold data x).2 = None →
  (json.Unmarshal_rawmap data).2 = None.
Proof. by destruct data. Qed.

(** A member that goes to another field leaves the field [j] and the
    names of the fields as they are. *)
Lemma decode_member_untouched (x : list (string * json.FieldValue)) err m j g :
  x !! j = Some g → json.field_index fold x m.1 ≠ Some j →
  (json.decode_member fold (x, err) m).1.*1 = x.*1
  ∧ (json.decode_member fold (x, err) m).1 !! j = Some g.
Proof.
  intros Hj Hm. unfold json.decode_member, json.Struct in *. cbn [fst snd].
  destruct (json.field_index fold x m.1) as [i|]; [|done].
  destruct (x !! i) as [[name old]|] eqn:Hi; [|done]. cbn [fst].
  split.
  - rewrite list_fmap_insert. apply list_insert_id.
    by rewrite list_lookup_fmap, Hi.
  - rewrite list_lookup_insert_ne; [done|]. by intros ->.
Qed.

Lemma field_index_names (x y : list (string * json.FieldValue)) key :
  x.*1 = y.*1 → json.field_index fold x key = json.field_index fold y key.
Proof. intros H. unfold json.field_index, json.Struct in *. by rewrite H. Qed.

Lemma decode_members_untouched (doc : list (string * json.json))
    (x : list (string * json.FieldValue)) err j g :
  x !! j = Some g →
  (∀ m, m ∈ doc → json.field_index fold x m.1 ≠ Some j) →
  (foldl (json.decode_member fold) (x, err) doc).1.*1 = x.*1
  ∧ (foldl (json.decode_member fold) (x, err) doc).1 !! j = Some g.
Proof.
  revert x err. induction doc as [|m doc IH]; intros x err Hj Hdoc; [done|].
  cbn [foldl].
  destruct (decode_member_untouched x err m j g Hj) as [Hnames Hkeep].
  { apply Hdoc. left. }
  destruct (json.decode_member fold (x, err) m) as [x1 err1].
  cbn [fst] in Hnames, Hkeep.
  destruct (IH x1 err1 Hkeep) as [Hnames' Hkeep'].
  { intros m' Hm'. rewrite (field_index_names x1 x) by done.
    apply Hdoc. by right. }
  split; [by etrans; [apply Hnames'|]|done].
Qed.

Lemma decode_members_names (doc : list (string * json.json))
    (x : list (string * json.FieldValue)) err :
  (foldl (json.decode_member fold) (x, err) doc).1.*1 = x.*1.
Proof.
  revert x err. induction doc as [|m doc IH]; intros x err; [done|].
  cbn [foldl].
  destruct (json.decode_member fold (x, err) m) as [x1 err1] eqn:Hstep.
  etrans; [apply IH|]. apply (f_equal fst) in Hstep. cbn [fst] in Hstep. subst x1.
  unfold json.decode_member, json.Struct in *. cbn [fst snd].
  destruct (json.field_index fold x m.1) as [i|]; [|done].
  destruct (x !! i) as [[name old]|] eqn:Hi; [|done]. cbn [fst].
  rewrite list_fmap_insert. apply list_insert_id.
  by rewrite list_lookup_fmap, Hi.
Qed.

Lemma Unmarshal_struct_names data (x : list (string * json.FieldValue)) :
  (json.Unmarshal_struct fold data x).1.*1 = x.*1.
Proof. destruct data; try done. apply decode_members_names. Qed.

End UnmarshalJSON.

(** X15.  A document whose base fields decode and that holds [null] under
    the key of a registered provider makes [UnmarshalJSON] panic: the raw
    message of the member is a [nil] pointer, which the loop over the
    providers dereferences. *)
Theorem UnmarshalJSON_null_provider (fold : string → string → bool)
    (providers : list registry.Configuration) (data : json.json)
    (c : config.Configuration) (r : registry.Configuration) :
  (json.Unmarshal_struct fold data (config.base_fields c)).2 = None →
  r ∈ providers →
  (json.Unmarshal_rawmap data).1 !! registry.JSONKey r = Some None →
  config.UnmarshalJSON fold providers data c = None.
Proof.
  intros Hbase Hr Hnil. unfold config.UnmarshalJSON. cbn zeta.
  rewrite Hbase, (Unmarshal_rawmap_error fold _ _ Hbase).
  by rewrite (attach_providers_nil fold _ _ _ r).
Qed.

Lemma UnmarshalJSON_null_provider_witness :
  config.UnmarshalJSON ascii_EqualFold sample_registry sample_null_section
    config.zero
  = None.
Proof.
  apply (UnmarshalJSON_null_provider ascii_EqualFold sample_registry
           sample_null_section config.zero
           (oxford.to_Configuration {| oxford.AppID := ""; oxford.AppKey := "" |})).
  - reflexivity.
  - left.
  - reflexivity.
Defined.

(** X16.  The section of a registered provider is decoded into the
    provider's configuration, and what goes wrong in it is not reported:
    when the base fields decode and no section of a registered provider is
    [null], [UnmarshalJSON] returns no error whatever the sections hold, the
    provider's configuration is attached under its key with the fields it
    had, and a field that no member of the section goes to keeps its
    value. *)
Theorem UnmarshalJSON_provider_section (fold : string → string → bool)
    (providers : list registry.Configuration) (data raw : json.json)
    (c : config.Configuration) (r : registry.Configuration) :
  NoDup (registry.JSONKey <$> providers) →
  (json.Unmarshal_struct fold data (config.base_fields c)).2 = None →
  (∀ r', r' ∈ providers →
     (json.Unmarshal_rawmap data).1 !! registry.JSONKey r' ≠ Some None) →
  r ∈ providers →
  (json.Unmarshal_rawmap data).1 !! registry.JSONKey r = Some (Some raw) →
  ∃ c' providers' fields,
    config.UnmarshalJSON fold providers data c = Some (c', None, providers')
    ∧ config.providerConfigs c' !! registry.JSONKey r
      = Some (Some {| registry.JSONKey := registry.JSONKey r;
                      registry.Fields := fields |})
    ∧ fields.*1 = (registry.Fields r).*1
    ∧ (∀ members j g,
         raw = json.JObject members →
         registry.Fields r !! j = Some g →
         (∀ m, m ∈ members →
            json.field_index fold (registry.Fields r) m.1 ≠ Some j) →
         fields !! j = Some g).
Proof.
  intros Hnodup Hbase Hnil Hr Hraw. unfold config.UnmarshalJSON. cbn zeta.
  rewrite Hbase, (Unmarshal_rawmap_error fold _ _ Hbase).
  destruct (attach_providers_spec fold (json.Unmarshal_rawmap data).1 providers
              (config.with_base_fields c
                 (json.Unmarshal_struct fold data (config.base_fields c)).1)
              Hnodup Hnil)
    as (c1 & providers' & -> & _ & _ & Hattach & _).
  exists c1, providers',
    (json.Unmarshal_struct fold raw (registry.Fields r)).1.
  cbn [mbind option_bind]. split; [done|]. split; [by apply Hattach|].
  split; [apply Unmarshal_struct_names|].
  intros members j g -> Hj Hmembers. cbn [json.Unmarshal_struct].
  by apply decode_members_untouched.
Qed.

Lemma UnmarshalJSON_provider_section_witness :
  (json.Unmarshal_struct ascii_EqualFold
     (json.JObject [("AppID", json.JInt 5)])
     (registry.Fields (oxford.to_Configuration sample_oxford))).2
  = Some (json.UnmarshalTypeError "AppID")
  ∧ ∃ c' providers' fields,
      config.UnmarshalJSON ascii_EqualFold sample_registry_set
        sample_mistyped_section config.zero
      = Some (c', None, providers')
      ∧ config.providerConfigs c' !! "OxfordDictionary"
        = Some (Some {| registry.JSONKey := "OxfordDictionary";
                        registry.Fields := fields |})
      ∧ fields !! 1%nat = Some ("AppKey", json.FString "secret").
Proof.
  split; [reflexivity|].
  destruct (UnmarshalJSON_provider_section ascii_EqualFold sample_registry_set
              sample_mistyped_section (json.JObject [("AppID", json.JInt 5)])
              config.zero (oxford.to_Configuration sample_oxford))
    as (c' & providers' & fields & Hc' & Hattached & _ & Hkept).
  - by apply (bool_decide_unpack _).
  - reflexivity.
  - intros r' ->%list_elem_of_singleton. discriminate.
  - left.
  - reflexivity.
  - exists c', providers', fields. split; [done|]. split; [done|].
    apply (Hkept [("AppID", json.JInt 5)]); [reflexivity..|].
    intros m ->%list_elem_of_singleton. discriminate.
Defined.

(** ** The order of the provider map *)

Lemma foldl_uncurry_reverse {K A B : Type} (f : K → A → B → B) (b : B)
    (l : list (K * A)) :
  foldl (λ acc kv, f kv.1 kv.2 acc) b l = foldr (uncurry f) b (reverse l).
Proof.
  revert b. induction l as [|[k x] l IH]; intros b; [done|].
  rewrite reverse_cons, foldr_app. simpl. apply IH.
Qed.

(** Two turns of the loop of [MarshalJSON] can be exchanged. *)
Lemma marshal_provider_comm (m : gmap string (option registry.Configuration))
    k1 v1 k2 v2 (configMap : gmap string json.json) :
  distinct_keys m → m !! k1 = Some v1 → m !! k2 = Some v2 →
  config.marshal_provider k1 v1 (config.marshal_provider k2 v2 configMap)
  = config.marshal_provider k2 v2 (config.marshal_provider k1 v1 configMap).
Proof.
  intros Hdistinct H1 H2. unfold config.marshal_provider.
  destruct v1 as [p1|], v2 as [p2|]; try done.
  destruct (decide _) as [|Hp1]; [done|].
  destruct (decide _) as [|Hp2]; [done|].
  destruct (decide (registry.JSONKey p1 = registry.JSONKey p2)) as [Hkey|Hkey].
  - rewrite (Hdistinct p1 p2); [done|by eexists..| | |done].
    + by apply has_fields_length.
    + by apply has_fields_length.
  - by apply insert_insert_ne.
Qed.

(** X20.  The document that [MarshalJSON] writes does not depend on the
    order in which the loop ranges over the provider map, which Go leaves
    open, as long as the provider configurations that have a field report
    different keys. *)
Theorem MarshalJSON_any_order (c : config.Configuration)
    (entries : list (string * option registry.Configuration)) :
  distinct_keys (config.providerConfigs c) →
  entries ≡ₚ map_to_list (config.providerConfigs c) →
  MarshalJSON_in_order c entries = (config.MarshalJSON c).1.
Proof.
  intros Hdistinct Hentries.
  unfold MarshalJSON_in_order, config.MarshalJSON. cbn [fst]. f_equal.
  rewrite map_fold_foldr, foldl_uncurry_reverse.
  apply (foldr_permutation (=) (uncurry config.marshal_provider)).
  - solve_proper.
  - intros j1 [k1 v1] j2 [k2 v2] configMap _ Hj1 Hj2. cbn [fst snd].
    apply (marshal_provider_comm (config.providerConfigs c)); [done| |];
      apply elem_of_map_to_list; rewrite <-Hentries;
      rewrite <-(reverse_Permutation entries);
      by eapply list_elem_of_lookup_2.
  - by rewrite reverse_Permutation.
Qed.

Lemma MarshalJSON_any_order_witness :
  MarshalJSON_in_order sample_config_both
    (reverse (map_to_list (config.providerConfigs sample_config_both)))
  = (config.MarshalJSON sample_config_both).1.
Proof.
  apply (MarshalJSON_any_order sample_config_both).
  - assert (∀ p, attached (config.providerConfigs sample_config_both) p →
              has_fields p → p = oxford.to_Configuration sample_oxford)
      as Hattached.
    { intros p [k Hk] Hfields. unfold sample_config_both in Hk. cbn in Hk.
      apply lookup_insert_Some in Hk as [[_ [= <-]]|[_ Hk]]; [done|].
      apply lookup_singleton_Some in Hk as [_ [= <-]]. by destruct Hfields. }
    intros p q Hp Hq Hfp Hfq _.
    by rewrite (Hattached p Hp Hfp), (Hattached q Hq Hfq).
  - apply reverse_Permutation.
Defined.

(** ** The query of the Glosbe URL *)

Section url_roundtrip.

Lemma QueryEscape_cons c s :
  url.QueryEscape (String c s)
  = url.QueryEscape (String c EmptyString) +:+ url.QueryEscape s.
Proof.
  cbn [url.QueryEscape].
  by destruct (bool_decide (c = " "%char)), (url.shouldEscape c).
Qed.

Lemma QueryUnescape_escaped_byte c rest :
  url.QueryUnescape (url.QueryEscape (String c EmptyString) +:+ rest)
  = String c <$> url.QueryUnescape rest.
Proof.
  destruct c as [[] [] [] [] [] [] [] []]; reflexivity.
Qed.

(** Unescaping an escaped string gives the string. *)
Lemma QueryUnescape_QueryEscape s :
  url.QueryUnescape (url.QueryEscape s) = Some s.
Proof.
  induction s as [|c s IH]; [done|].
  rewrite QueryEscape_cons, QueryUnescape_escaped_byte. by rewrite IH.
Qed.

Lemma contains_append c s t :
  url.contains c (s +:+ t) = url.contains c s || url.contains c t.
Proof.
  induction s as [|c' s IH]; [done|]. rewrite append_cons. simpl.
  rewrite IH. by rewrite orb_assoc.
Qed.

Lemma contains_QueryEscape sep s :
  separator sep → url.contains sep (url.QueryEscape s) = false.
Proof.
  intros Hsep. induction s as [|c s IH]; [done|].
  rewrite QueryEscape_cons, contains_append, IH, orb_false_r.
  destruct Hsep as [->|[->| ->]];
    destruct c as [[] [] [] [] [] [] [] []]; reflexivity.
Qed.

Lemma cut_append sep s t :
  url.contains sep s = false →
  url.cut sep (s +:+ String sep t) = (s, t).
Proof.
  induction s as [|c s IH]; intros Hs.
  - simpl. by rewrite bool_decide_eq_true_2.
  - simpl in Hs. apply orb_false_iff in Hs as [Hc Hs].
    rewrite append_cons. simpl.
    apply bool_decide_eq_false in Hc.
    rewrite bool_decide_eq_false_2 by done. by rewrite IH.
Qed.

Lemma split_on_free sep s :
  url.contains sep s = false → url.split_on sep s = [s].
Proof.
  induction s as [|c s IH]; intros Hs; [done|].
  simpl in Hs. apply orb_false_iff in Hs as [Hc Hs].
  apply bool_decide_eq_false in Hc. simpl.
  rewrite bool_decide_eq_false_2 by done. by rewrite IH.
Qed.

Lemma split_on_append sep s t :
  url.contains sep s = false →
  url.split_on sep (s +:+ String sep t) = s :: url.split_on sep t.
Proof.
  induction s as [|c s IH]; intros Hs.
  - simpl. by rewrite bool_decide_eq_true_2.
  - simpl in Hs. apply orb_false_iff in Hs as [Hc Hs].
    apply bool_decide_eq_false in Hc.
    rewrite append_cons. simpl.
    rewrite bool_decide_eq_false_2 by done. by rewrite IH.
Qed.

Lemma split_on_join sep pieces :
  pieces ≠ [] →
  Forall (λ piece, url.contains sep piece = false) pieces →
  url.split_on sep (url.join (String sep EmptyString) pieces) = pieces.
Proof.
  intros Hne Hfree. induction Hfree as [|piece pieces Hpiece Hfree IH]; [done|].
  destruct pieces as [|piece' pieces].
  - simpl. by apply split_on_free.
  - change (url.join (String sep "") (piece :: piece' :: pieces))
      with (piece +:+ String sep (url.join (String sep "") (piece' :: pieces))).
    rewrite split_on_append by done. by rewrite IH.
Qed.

Lemma parse_piece_encode_pair m kv :
  url.parse_piece m (encode_pair kv) = add_value m kv.
Proof.
  unfold url.parse_piece, encode_pair.
  rewrite !contains_append, !contains_QueryEscape by (right; by right).
  cbn [orb url.contains]. rewrite bool_decide_eq_false_2 by done. cbn [orb].
  rewrite bool_decide_eq_false_2.
  2:{ intros Hempty. apply (f_equal (url.contains "=")) in Hempty.
      rewrite contains_append in Hempty. simpl in Hempty.
      by rewrite orb_true_r in Hempty. }
  change ("=" +:+ url.QueryEscape kv.2)
    with (String "=" (url.QueryEscape kv.2)).
  rewrite cut_append by (apply contains_QueryEscape; right; by left).
  cbn [fst snd]. by rewrite !QueryUnescape_QueryEscape.
Qed.

Lemma foldl_parse_piece m pairs :
  foldl url.parse_piece m (encode_pair <$> pairs) = foldl add_value m pairs.
Proof.
  revert m. induction pairs as [|kv pairs IH]; intros m; [done|].
  rewrite fmap_cons. cbn [foldl]. by rewrite parse_piece_encode_pair, IH.
Qed.

Lemma ParseQuery_encode_pairs pairs :
  url.ParseQuery (url.join "&" (encode_pair <$> pairs)) = foldl add_value ∅ pairs.
Proof.
  unfold url.ParseQuery. destruct pairs as [|kv pairs]; [done|].
  rewrite split_on_join; [apply foldl_parse_piece|done|].
  apply Forall_fmap, Forall_forall. intros kv' _. unfold encode_pair. simpl.
  rewrite !contains_append, !contains_QueryEscape by by left. done.
Qed.

Lemma foldl_add_value_key (m : gmap string (list string)) k vals :
  foldl add_value m (pair k <$> vals)
  = match vals with
    | [] => m
    | _ => <[k := default [] (m !! k) ++ vals]> m
    end.
Proof.
  revert m. induction vals as [|value vals IH]; intros m; [done|].
  rewrite fmap_cons. cbn [foldl]. rewrite IH.
  destruct vals as [|value' vals]; [done|].
  unfold add_value. cbn [fst snd].
  rewrite lookup_insert_eq, insert_insert_eq. cbn [default from_option id].
  by rewrite <-app_assoc.
Qed.

Lemma foldl_add_value_keys (v m : gmap string (list string)) ks k' :
  no_empty_value v → NoDup ks → (∀ k, k ∈ ks → m !! k = None) →
  foldl add_value m (k ← ks; pair k <$> default [] (v !! k)) !! k'
  = if decide (k' ∈ ks) then v !! k' else m !! k'.
Proof.
  intros Hv. revert m. induction ks as [|k ks IH]; intros m Hnodup Hm.
  { rewrite decide_False by (by intros ?%elem_of_nil). done. }
  apply NoDup_cons in Hnodup as [Hk Hnodup].
  rewrite bind_cons, foldl_app, foldl_add_value_key.
  assert (m !! k = None) as Hmk by (apply Hm; left).
  destruct (v !! k) as [vals|] eqn:Hvk; cbn [default from_option id].
  - destruct vals as [|value vals]; [by destruct (Hv k [] Hvk)|].
    rewrite IH; [|done|].
    2:{ intros k0 Hk0. rewrite lookup_insert_ne by by intros ->.
        apply Hm. by right. }
    rewrite Hmk. cbn [default from_option id app].
    destruct (decide (k' = k)) as [->|Hne].
    + rewrite decide_False by done. rewrite lookup_insert_eq.
      rewrite decide_True by left. by rewrite Hvk.
    + rewrite lookup_insert_ne by done.
      destruct (decide (k' ∈ ks)) as [Hin|Hout].
      * by rewrite decide_True by by right.
      * rewrite decide_False; [done|]. by intros [?|?]%elem_of_cons.
  - rewrite IH; [|done|by intros k0 Hk0; apply Hm; right].
    destruct (decide (k' = k)) as [->|Hne].
    + rewrite decide_False by done. rewrite decide_True by left.
      by rewrite Hmk, Hvk.
    + destruct (decide (k' ∈ ks)) as [Hin|Hout].
      * by rewrite decide_True by by right.
      * rewrite decide_False; [done|]. by intros [?|?]%elem_of_cons.
Qed.

Lemma encode_pair_bind (v : gmap string (list string)) (ks : list string) :
  (k ← ks; (λ value, url.QueryEscape k +:+ "=" +:+ url.QueryEscape value)
             <$> default [] (v !! k))
  = encode_pair <$> (k ← ks; pair k <$> default [] (v !! k)).
Proof.
  induction ks as [|k ks IH]; [done|].
  rewrite !bind_cons, fmap_app, IH. f_equal.
  by rewrite <-list_fmap_compose.
Qed.

(** Parsing the encoding of the values of a query gives them back. *)
Lemma ParseQuery_Values_Encode (v : gmap string (list string)) :
  no_empty_value v → url.ParseQuery (url.Values_Encode v) = v.
Proof.
  intros Hv. unfold url.Values_Encode.
  rewrite encode_pair_bind, ParseQuery_encode_pairs.
  remember (merge_sort _ _) as ks eqn:Hsorted.
  assert (ks ≡ₚ (map_to_list v).*1) as Hks.
  { rewrite Hsorted. apply merge_sort_Permutation. }
  apply map_eq. intros k'.
  rewrite foldl_add_value_keys; [|done| |done].
  2:{ rewrite Hks. apply NoDup_fst_map_to_list. }
  case_decide as Hk; [done|]. rewrite lookup_empty.
  destruct (v !! k') as [vals|] eqn:Hvk; [|done].
  destruct Hk. rewrite Hks. apply list_elem_of_fmap.
  exists (k', vals). split; [done|]. by apply elem_of_map_to_list.
Qed.

Lemma ParseQuery_no_empty_value query : no_empty_value (url.ParseQuery query).
Proof.
  unfold url.ParseQuery.
  assert (no_empty_value (∅ : gmap string (list string))) as Hempty.
  { intros k vals Hk. by rewrite lookup_empty in Hk. }
  revert Hempty. unfold url.Values. generalize (∅ : gmap string (list string)).
  induction (url.split_on "&" query) as [|piece pieces IH]; intros m Hm; [done|].
  cbn [foldl]. apply IH. unfold url.parse_piece, url.Values.
  destruct (url.contains ";" piece); [done|].
  case_bool_decide; [done|].
  destruct (url.QueryUnescape _) as [key|]; [|done].
  destruct (url.QueryUnescape _) as [value|]; [|done].
  intros k vals Hk. destruct (decide (key = k)) as [->|Hne].
  - rewrite lookup_insert_eq in Hk. injection Hk as <-.
    by destruct (default [] (m !! k)).
  - rewrite lookup_insert_ne in Hk by done. by eapply Hm.
Qed.

(** Setting a parameter of a parsed query, encoding and parsing again. *)
Lemma ParseQuery_Values_Set query key value :
  url.ParseQuery
    (url.Values_Encode (url.Values_Set (url.ParseQuery query) key value))
  = <[key := [value]]> (url.ParseQuery query).
Proof.
  apply ParseQuery_Values_Encode.
  intros k vals. unfold url.Values_Set, url.Values.
  destruct (decide (key = k)) as [<-|Hne].
  - rewrite lookup_insert_eq. by intros [= <-].
  - rewrite lookup_insert_ne by done. apply ParseQuery_no_empty_value.
Qed.

End url_roundtrip.

(** X17.  The query of the URL that [Define] requests holds the parameters
    that the query of [apiURL] held, with "phrase" set to the word and to
    nothing else: whatever bytes the word is made of, escaping them and
    parsing the query again gives the word. *)
Theorem Define_query (EqualFold : string → string → bool) (w : glosbe.World)
    (st : glosbe.State) (word : string) :
  url.Query (glosbe.apiURL (glosbe.Define EqualFold w st word).1)
  = <["phrase" := [word]]> (url.Query (glosbe.apiURL st)).
Proof.
  unfold glosbe.Define, url.Query.
  cbn [fst glosbe.apiURL url.RawQuery url.set_RawQuery].
  apply ParseQuery_Values_Set.
Qed.

(** X18.  The word of an earlier call leaves no trace in the package
    state: after [Define] of a first word, [Define] of a second leaves the
    state that it leaves without the first call. *)
Theorem Define_again (EqualFold : string → string → bool) (w w' : glosbe.World)
    (st : glosbe.State) (first word : string) :
  (glosbe.Define EqualFold w' (glosbe.Define EqualFold w st first).1 word).1
  = (glosbe.Define EqualFold w' st word).1.
Proof.
  unfold glosbe.Define, url.Query.
  cbn [fst glosbe.apiURL glosbe.validMIMETypes url.RawQuery url.set_RawQuery].
  rewrite ParseQuery_Values_Set.
  unfold url.Values_Set, url.set_RawQuery, url.Values.
  cbn [url.Scheme url.Host url.Path]. by rewrite insert_insert_eq.
Qed.

(** ** The Oxford credentials *)

Lemma assert_config_to_Configuration (c : oxford.config) :
  oxford.assert_config (oxford.to_Configuration c) = Some c.
Proof. by destruct c. Qed.

(** X19.  The Oxford credentials are those of the command line where a
    flag is given, and those of the environment (empty when the variable is
    not set) where it is not; [Provide] on the configuration so made fails
    for the application id when that one is empty, else for the
    application key when that one is empty, and builds the client of the
    two otherwise. *)
Theorem Provide_initConfig (Source : Type) (New : unit → string → string → Source)
    (rt : config.Runtime) (flags : oxford.FlagSet) (id key : string) :
  id = default (config.os_Getenv rt "OXFORD_DICTIONARY_APP_ID")
         (oxford.flag_app_id flags) →
  key = default (config.os_Getenv rt "OXFORD_DICTIONARY_APP_KEY")
          (oxford.flag_app_key flags) →
  oxford.Provide Source New
    (oxford.to_Configuration (oxford.flags_Parse flags (oxford.initConfig rt)))
  = Some (if decide (id = "")
          then (None, Some {| oxford.Key := "AppID" |})
          else if decide (key = "")
               then (None, Some {| oxford.Key := "AppKey" |})
               else (Some (New () id key), None)).
Proof.
  intros -> ->. unfold oxford.Provide.
  rewrite assert_config_to_Configuration. cbn [mbind option_bind].
  unfold oxford.flags_Parse, oxford.initConfig. cbn [oxford.AppID oxford.AppKey].
  repeat (case_bool_decide || case_decide); congruence.
Qed.

Lemma Provide_initConfig_witness :
  oxford.Provide string (λ _ id key, id +:+ ":" +:+ key)
    (oxford.to_Configuration
       (oxford.flags_Parse no_oxford_flags (oxford.initConfig oxford_environment)))
  = Some (Some "id:secret", None)
  ∧ oxford.Provide string (λ _ id key, id +:+ ":" +:+ key)
      (oxford.to_Configuration
         (oxford.flags_Parse empty_app_id_flag
            (oxford.initConfig oxford_environment)))
    = Some (None, Some {| oxford.Key := "AppID" |}).
Proof.
  split.
  - apply (Provide_initConfig string (λ _ id key, id +:+ ":" +:+ key)
             oxford_environment no_oxford_flags "id" "secret"); reflexivity.
  - apply (Provide_initConfig string (λ _ id key, id +:+ ":" +:+ key)
             oxford_environment empty_app_id_flag "" "secret"); reflexivity.
Defined.
